(** * Index translation and selection geometry of the grid core

    A shallow embedding of
    - [src/translations/maps/utils/physicallyIndexed.js] (ordered list transform),
    - [src/translations/mapCollection.js] (registry of index maps),
    - [src/3rdparty/walkontable/src/selection.js] (selection geometry and
      render planning),
    followed by the properties proved about them. *)

From stdpp Require Import base option list strings pretty.
From Stdlib Require Import ZArith Lia.

(** ** JavaScript array primitives used by the sources *)

Module JsArray.

(** The relative index computed by [Array.prototype.slice] from an
    argument that is already an integer: a negative argument counts
    from the end of the array, and the result is clamped to [0, len]. *)
Definition relativeIndex (len k : Z) : Z :=
  if (k <? 0)%Z then Z.max (len + k) 0 else Z.min k len.

(** [l.slice(start, end)].  [None] stands for [undefined]: an undefined
    [start] converts to 0, an undefined [end] to the length. *)
Definition slice {A} (l : list A) (start end_ : option Z) : list A :=
  let len := Z.of_nat (length l) in
  let k := relativeIndex len (default 0%Z start) in
  let final := match end_ with
               | None => len
               | Some e => relativeIndex len e
               end in
  take (Z.to_nat (final - k)) (drop (Z.to_nat k) l).

(** The array position that [slice] computes from the integer [k]. *)
Definition splicePosition {A} (l : list A) (k : Z) : nat :=
  Z.to_nat (relativeIndex (Z.of_nat (length l)) k).

(** [l.includes(x)] on an array of integers. *)
Definition includes (l : list Z) (x : Z) : bool :=
  existsb (Z.eqb x) l.

(** [l.map((value, index) => f(value, index))]. *)
Definition mapWithIndex {A B} (f : A -> nat -> B) (l : list A) : list B :=
  imap (fun index value => f value index) l.

(** Modelled from the spec: the helper [arrayFilter] of
    [helpers/array.js] is not among the sources.  It keeps, in order,
    the elements on which the predicate, called with the value and its
    position, holds. *)
Fixpoint arrayFilterFrom {A} (index : nat) (array : list A)
    (predicate : A -> nat -> bool) : list A :=
  match array with
  | [] => []
  | value :: rest =>
      if predicate value index
      then value :: arrayFilterFrom (S index) rest predicate
      else arrayFilterFrom (S index) rest predicate
  end.

Definition arrayFilter {A} (array : list A) (predicate : A -> nat -> bool)
    : list A :=
  arrayFilterFrom 0 array predicate.

End JsArray.

(** ** Ordered list transform ([physicallyIndexed.js]) *)

(** Indexes are JavaScript numbers that hold integers; they are modelled
    in [Z], so that what [slice] does with a negative or an undefined
    bound is part of the model.  A physical index is a non-negative
    integer. *)

Module PhysicallyIndexed.
Import JsArray.

(** What a map inserts at new positions: a plain value, or a function
    called with the inserted index and its ordinal number in the batch. *)
Inductive ValuesMapping (V : Type) : Type :=
| PlainValue (value : V)
| ValueFunction (fn : Z -> nat -> V).
Arguments PlainValue {V} value.
Arguments ValueFunction {V} fn.

(** The callback given to [insertedIndexes.map]: the test
    [isFunction(insertedValuesMapping)] is the case analysis. *)
Definition insertedValue {V} (insertedValuesMapping : ValuesMapping V)
    (insertedIndex : Z) (ordinalNumber : nat) : V :=
  match insertedValuesMapping with
  | ValueFunction fn => fn insertedIndex ordinalNumber
  | PlainValue value => value
  end.

(** The new entries of a batch, as [insertedIndexes.map] builds them. *)
Definition newEntries {V} (insertedValuesMapping : ValuesMapping V)
    (insertedIndexes : list Z) : list V :=
  mapWithIndex (insertedValue insertedValuesMapping) insertedIndexes.

(** [insertedIndexes[0]]: [undefined] on an empty batch. *)
Definition firstInsertedIndex (insertedIndexes : list Z) : option Z :=
  head insertedIndexes.

Definition getListWithInsertedItems {V} (indexedValues : list V)
    (insertionIndex : Z) (insertedIndexes : list Z)
    (insertedValuesMapping : ValuesMapping V) : list V :=
  slice indexedValues (Some 0%Z) (firstInsertedIndex insertedIndexes)
  ++ newEntries insertedValuesMapping insertedIndexes
  ++ slice indexedValues (firstInsertedIndex insertedIndexes) None.

Definition getListWithRemovedItems {V} (indexedValues : list V)
    (removedIndexes : list Z) : list V :=
  arrayFilter indexedValues
    (fun _ index => negb (includes removedIndexes (Z.of_nat index))).

End PhysicallyIndexed.

(** ** Index maps *)

Module IndexMaps.
Import JsArray PhysicallyIndexed.

(** Modelled from the spec: the index map classes of [translations/maps]
    are not among the sources.  An index map holds an ordered sequence of
    values and the source of its initial values, a value or a function of
    the index; [insert] and [remove] delegate to the ordered list
    transform, [init] rebuilds the sequence, and each of them fires the
    map's change notification once, after the sequence is replaced. *)
Inductive InitialValueSource (V : Type) : Type :=
| InitialValue (value : V)
| InitialValueFunction (fn : Z -> V).
Arguments InitialValue {V} value.
Arguments InitialValueFunction {V} fn.

(** A function of the index alone ignores the ordinal number it is
    called with by the list transform. *)
Definition asValuesMapping {V} (source : InitialValueSource V)
    : ValuesMapping V :=
  match source with
  | InitialValue value => PlainValue value
  | InitialValueFunction fn => ValueFunction (fun index _ => fn index)
  end.

Definition initialValueAt {V} (source : InitialValueSource V) (index : Z) : V :=
  match source with
  | InitialValue value => value
  | InitialValueFunction fn => fn index
  end.

(** Maps and collections are objects: a map is known by its reference,
    a collection by its identity. *)
Definition MapRef := nat.
Definition CollectionId := nat.

(** Modelled from the spec: the map object of [translations/maps], with
    its sequence of values and its initial-value source.  [changeHooks]
    lists the collections whose callback is attached to the map's change
    notification, one entry per [addLocalHook]. *)
Record IndexMap (V : Type) : Type := mkIndexMap {
  indexedValues : list V;
  initValueOrFn : InitialValueSource V;
  changeHooks : list CollectionId
}.
Arguments mkIndexMap {V} _ _ _.
Arguments indexedValues {V} _.
Arguments initValueOrFn {V} _.
Arguments changeHooks {V} _.

(** A change notification of a collection, carrying the map. *)
Inductive Notification : Type :=
| CollectionChange (collection : CollectionId) (map : MapRef).

(** The state shared by all collections: the module-level counter
    [registeredMaps], an integer; the map objects, each under its
    reference, so that a map registered twice is one object; and the
    notifications emitted so far, oldest first. *)
Record World (V : Type) : Type := mkWorld {
  registeredMaps : Z;
  heap : MapRef -> IndexMap V;
  notifications : list Notification
}.
Arguments mkWorld {V} _ _ _.
Arguments registeredMaps {V} _.
Arguments heap {V} _.
Arguments notifications {V} _.

Definition updateMap {V} (map : MapRef) (f : IndexMap V -> IndexMap V)
    (w : World V) : World V :=
  mkWorld (registeredMaps w)
          (fun r => if Nat.eqb r map then f (heap w r) else heap w r)
          (notifications w).

Definition emit {V} (events : list Notification) (w : World V) : World V :=
  mkWorld (registeredMaps w) (heap w) (notifications w ++ events).

(** Modelled from the spec: [map.runLocalHooks('change')] of the
    [localHooks] mixin, which is not among the sources.  Every attached
    callback re-emits the change as a change of its collection. *)
Definition runMapChangeHooks {V} (map : MapRef) (w : World V) : World V :=
  emit (List.map (fun c => CollectionChange c map) (changeHooks (heap w map))) w.

Definition setValues {V} (values : list V) (m : IndexMap V) : IndexMap V :=
  mkIndexMap values (initValueOrFn m) (changeHooks m).

(** Modelled from the spec: one structural mutation of a map.  Its
    sequence is replaced by what [operation] computes from the map, then
    its change notification runs, once. *)
Definition mutateMap {V} (operation : IndexMap V -> list V) (map : MapRef)
    (w : World V) : World V :=
  runMapChangeHooks map
    (updateMap map (fun m => setValues (operation m) m) w).

Definition valuesAfterInsert {V} (insertionIndex : Z)
    (insertedIndexes : list Z) (m : IndexMap V) : list V :=
  getListWithInsertedItems (indexedValues m) insertionIndex insertedIndexes
    (asValuesMapping (initValueOrFn m)).

Definition valuesAfterRemove {V} (removedIndexes : list Z) (m : IndexMap V)
    : list V :=
  getListWithRemovedItems (indexedValues m) removedIndexes.

(** Modelled from the spec: the sequence that [init(length)] stores,
    [length] entries made from the initial-value source at the indexes
    [0 .. length - 1].  A length is a number of entries. *)
Definition valuesAfterInit {V} (length : nat) (m : IndexMap V) : list V :=
  List.map (initialValueAt (initValueOrFn m)) (seqZ 0 (Z.of_nat length)).

(** Modelled from the spec: [map.insert], [map.remove] and [map.init] of
    the index map classes, the three mutations of 4.2. *)
Definition mapInsert {V} (map : MapRef) (insertionIndex : Z)
    (insertedIndexes : list Z) (w : World V) : World V :=
  mutateMap (valuesAfterInsert insertionIndex insertedIndexes) map w.

(** Modelled from the spec: [map.remove(removedIndexes)]. *)
Definition mapRemove {V} (map : MapRef) (removedIndexes : list Z)
    (w : World V) : World V :=
  mutateMap (valuesAfterRemove removedIndexes) map w.

(** Modelled from the spec: [map.init(length)], which discards the prior
    contents and makes [length] entries from the initial-value source. *)
Definition mapInit {V} (map : MapRef) (length : nat) (w : World V)
    : World V :=
  mutateMap (valuesAfterInit length) map w.

(** Modelled from the spec: [map.addLocalHook('change', callback)] with
    the callback of collection [c], and [map.clearLocalHooks()], of the
    [localHooks] mixin. *)
Definition addChangeHook {V} (map : MapRef) (c : CollectionId)
    (w : World V) : World V :=
  updateMap map
    (fun m => mkIndexMap (indexedValues m) (initValueOrFn m) (changeHooks m ++ [c]))
    w.

(** Modelled from the spec: [map.clearLocalHooks()]. *)
Definition clearLocalHooks {V} (map : MapRef) (w : World V) : World V :=
  updateMap map (fun m => mkIndexMap (indexedValues m) (initValueOrFn m) []) w.

End IndexMaps.

(** ** Map collection ([mapCollection.js]) *)

Module MapCollections.
Import JsArray PhysicallyIndexed IndexMaps.

(** [this.mappings] is a JavaScript [Map]: keys are unique and entries are
    kept, and visited by [forEach], in insertion order. *)
Record MapCollection : Type := mkMapCollection {
  collectionId : CollectionId;
  mappings : list (string * MapRef)
}.

Fixpoint mappingsGet (name : string) (ms : list (string * MapRef))
    : option MapRef :=
  match ms with
  | [] => None
  | (key, map) :: rest =>
      if String.eqb key name then Some map else mappingsGet name rest
  end.

Definition mappingsHas (name : string) (ms : list (string * MapRef)) : bool :=
  match mappingsGet name ms with
  | Some _ => true
  | None => false
  end.

(** [Map.prototype.set]: a present key keeps its place and gets the new
    value, a new key goes last. *)
Fixpoint mappingsSet (name : string) (map : MapRef)
    (ms : list (string * MapRef)) : list (string * MapRef) :=
  match ms with
  | [] => [(name, map)]
  | (key, old) :: rest =>
      if String.eqb key name then (key, map) :: rest
      else (key, old) :: mappingsSet name map rest
  end.

Definition mappingsDelete (name : string) (ms : list (string * MapRef))
    : list (string * MapRef) :=
  List.filter (fun entry => negb (String.eqb (fst entry) name)) ms.

(** [new MapCollection()]. *)
Definition newMapCollection (id : CollectionId) : MapCollection :=
  mkMapCollection id [].

Definition register {V} (uniqueName : string) (map : MapRef)
    (s : MapCollection * World V) : MapCollection * World V :=
  let (this, w) := s in
  if negb (mappingsHas uniqueName (mappings this)) then
    let this' := mkMapCollection (collectionId this)
                   (mappingsSet uniqueName map (mappings this)) in
    let w1 := addChangeHook map (collectionId this) w in
    (this', mkWorld (registeredMaps w1 + 1) (heap w1) (notifications w1))
  else (this, w).

Definition unregister {V} (name : string) (s : MapCollection * World V)
    : MapCollection * World V :=
  let (this, w) := s in
  match mappingsGet name (mappings this) with
  | Some map =>
      let w1 := clearLocalHooks map w in
      let this' := mkMapCollection (collectionId this)
                     (mappingsDelete name (mappings this)) in
      let w2 := emit [CollectionChange (collectionId this) map] w1 in
      (this', mkWorld (registeredMaps w2 - 1) (heap w2) (notifications w2))
  | None => (this, w)
  end.

(** [get(name)] and [get()]. *)
Definition get (name : string) (this : MapCollection) : option MapRef :=
  mappingsGet name (mappings this).

Definition getAll (this : MapCollection) : list MapRef :=
  List.map snd (mappings this).

Definition getLength (this : MapCollection) : nat :=
  length (mappings this).

(** [this.mappings.forEach(map => ...)]. *)
Definition forEachMap {V} (callback : MapRef -> World V -> World V)
    (this : MapCollection) (w : World V) : World V :=
  fold_left (fun acc entry => callback (snd entry) acc) (mappings this) w.

Definition removeFromEvery {V} (removedIndexes : list Z)
    (this : MapCollection) (w : World V) : World V :=
  forEachMap (fun map => mapRemove map removedIndexes) this w.

Definition insertToEvery {V} (insertionIndex : Z) (insertedIndexes : list Z)
    (this : MapCollection) (w : World V) : World V :=
  forEachMap (fun map => mapInsert map insertionIndex insertedIndexes) this w.

Definition initEvery {V} (length : nat) (this : MapCollection) (w : World V)
    : World V :=
  forEachMap (fun map => mapInit map length) this w.

Definition getRegisteredMapsCounter {V} (w : World V) : Z :=
  registeredMaps w.

(** Several collections living side by side, each known by its position. *)
Record System (V : Type) : Type := mkSystem {
  collections : list MapCollection;
  world : World V
}.
Arguments mkSystem {V} _ _.
Arguments collections {V} _.
Arguments world {V} _.

Definition onCollection {V} (k : nat)
    (method : MapCollection * World V -> MapCollection * World V)
    (sys : System V) : System V :=
  match collections sys !! k with
  | Some this =>
      let (this', w') := method (this, world sys) in
      mkSystem (<[k := this']> (collections sys)) w'
  | None => sys
  end.

(** Register every [(collection, name, map)] of a list, in order. *)
Definition registerAll {V} (regs : list (nat * string * MapRef))
    (sys : System V) : System V :=
  fold_left (fun acc reg => onCollection reg.1.1 (register reg.1.2 reg.2) acc)
            regs sys.

(** Unregister every [(collection, name)] of a list, in order. *)
Definition unregisterAll {V} (names : list (nat * string))
    (sys : System V) : System V :=
  fold_left (fun acc key => onCollection key.1 (unregister key.2) acc)
            names sys.




(** The name is registered in the collection at position [k]. *)
Definition isRegistered {V} (sys : System V) (key : nat * string) : bool :=
  match collections sys !! key.1 with
  | Some this => mappingsHas key.2 (mappings this)
  | None => false
  end.

Definition counterOf {V} (sys : System V) : Z :=
  getRegisteredMapsCounter (world sys).

Definition keyOf (reg : nat * string * MapRef) : nat * string :=
  (reg.1.1, reg.1.2).

(** A collection of two maps of five values each, and a system of two
    empty collections, used to exercise the statements below. *)
Definition sampleMap : IndexMap Z :=
  mkIndexMap [0; 1; 2; 3; 4]%Z (InitialValueFunction (fun _ => (-1)%Z)) [0].

Definition sampleWorld : World Z :=
  mkWorld 0 (fun _ => sampleMap) [].

Definition sampleCollection : MapCollection :=
  mkMapCollection 0 [("rowHeights"%string, 0); ("hiddenRows"%string, 1)].

Definition sampleSystem : System Z :=
  mkSystem [newMapCollection 0; newMapCollection 1] sampleWorld.

Definition sampleRegistrations : list (nat * string * MapRef) :=
  [(0, "rows"%string, 0); (1, "rows"%string, 1); (0, "columns"%string, 2)].

Definition sampleUnregistrations : list (nat * string) :=
  [(0, "columns"%string); (0, "rows"%string); (1, "rows"%string)].

End MapCollections.

(** ** Sequences of calls on several collections *)

Module MapCollectionPrograms.
Import JsArray PhysicallyIndexed IndexMaps MapCollections.

(** A call of a method of [mapCollection.js] on the collection at
    position [k]. *)
Inductive Operation : Type :=
| Register (k : nat) (uniqueName : string) (map : MapRef)
| Unregister (k : nat) (name : string)
| InsertToEvery (k : nat) (insertionIndex : Z) (insertedIndexes : list Z)
| RemoveFromEvery (k : nat) (removedIndexes : list Z)
| InitEvery (k : nat) (length : nat).

(** A method that leaves the collection object as it is. *)
Definition onMaps {V} (method : MapCollection -> World V -> World V)
    (s : MapCollection * World V) : MapCollection * World V :=
  (s.1, method s.1 s.2).

Definition perform {V} (operation : Operation) (sys : System V) : System V :=
  match operation with
  | Register k uniqueName map => onCollection k (register uniqueName map) sys
  | Unregister k name => onCollection k (unregister name) sys
  | InsertToEvery k insertionIndex insertedIndexes =>
      onCollection k (onMaps (insertToEvery insertionIndex insertedIndexes)) sys
  | RemoveFromEvery k removedIndexes =>
      onCollection k (onMaps (removeFromEvery removedIndexes)) sys
  | InitEvery k length => onCollection k (onMaps (initEvery length)) sys
  end.

Definition performAll {V} (operations : list Operation) (sys : System V)
    : System V :=
  fold_left (fun acc operation => perform operation acc) operations sys.

(** The number of maps registered in all collections together. *)
Definition totalLength {V} (sys : System V) : Z :=
  Z.of_nat (foldr (fun this total => getLength this + total) 0
                  (collections sys)).

(** The keys of [this.mappings] are pairwise different, as the keys of a
    [Map] are. *)
Definition uniqueNames (this : MapCollection) : Prop :=
  NoDup (mappings this).*1.

(** How often the map object is registered in the collection. *)
Definition timesRegistered (map : MapRef) (this : MapCollection) : nat :=
  length (filter (fun r => r = map) (getAll this)).

(** The object of a map after one mutation by [operation]. *)
Definition mutated {V} (operation : IndexMap V -> list V) (m : IndexMap V)
    : IndexMap V :=
  setValues (operation m) m.

(** What a method does to the collection it is called on: the names stay
    unique, and the counter moves as the size of the collection does. *)
Definition balanced {V}
    (method : MapCollection * World V -> MapCollection * World V) : Prop :=
  forall this w,
    uniqueNames this ->
    uniqueNames (method (this, w)).1
    /\ (registeredMaps (method (this, w)).2
        - Z.of_nat (getLength (method (this, w)).1)
        = registeredMaps w - Z.of_nat (getLength this))%Z.

Definition sampleOperations : list Operation :=
  [Register 0 "rows" 0; Register 1 "rows" 1; Register 0 "rows" 2;
   InitEvery 0 3; Unregister 1 "columns"; Register 0 "columns" 2;
   InsertToEvery 0 1 [1%Z]; Unregister 0 "rows"].

(** One map object registered under two names, next to another map. *)
Definition sharingCollection : MapCollection :=
  mkMapCollection 0 [("a"%string, 0); ("b"%string, 0); ("c"%string, 1)].


End MapCollectionPrograms.

(** ** Selection geometry ([selection.js]) *)

Module Walkontable.

(** A completed call: a normal return, or a thrown error. *)
Inductive Completion (A : Type) : Type :=
| Normal (value : A)
| Thrown (error : string).
Arguments Normal {A} value.
Arguments Thrown {A} error.

(** Row and column may be negative: they then denote header cells. *)
Record CellCoords : Type := mkCellCoords { row : Z; col : Z }.

(** Modelled from the spec: [cell/coords.js] is not among the sources.
    Equality of coordinates is value-based. *)
Definition isEqual (this cellCoords : CellCoords) : bool :=
  (row this =? row cellCoords)%Z && (col this =? col cellCoords)%Z.

(** Modelled from the spec: [cell/range.js] is not among the sources.  A
    range is a pair of corners; its top-left and bottom-right corners are
    the component-wise minimum and maximum of the two, whichever of them
    is the larger, and expanding it redefines [from] and [to] to the
    bounding box of the range and the new coordinates. *)
Record CellRange : Type := mkCellRange { from : CellCoords; to : CellCoords }.

(** Modelled from the spec: [new CellRange(coords)], a range of one
    cell. *)
Definition newCellRange (coords : CellCoords) : CellRange :=
  mkCellRange coords coords.

(** Modelled from the spec: the corners of [cell/range.js], by
    component-wise minimum and maximum. *)
Definition getTopLeftCorner (range : CellRange) : CellCoords :=
  mkCellCoords (Z.min (row (from range)) (row (to range)))
               (Z.min (col (from range)) (col (to range))).

(** Modelled from the spec: the bottom-right corner of [cell/range.js]. *)
Definition getBottomRightCorner (range : CellRange) : CellCoords :=
  mkCellCoords (Z.max (row (from range)) (row (to range)))
               (Z.max (col (from range)) (col (to range))).

(** Modelled from the spec: [range.expand(cellCoords)] of
    [cell/range.js], which redefines [from] and [to] to the bounding
    box. *)
Definition expand (cellCoords : CellCoords) (range : CellRange) : CellRange :=
  let topLeft := getTopLeftCorner range in
  let bottomRight := getBottomRightCorner range in
  mkCellRange
    (mkCellCoords (Z.min (row topLeft) (row cellCoords))
                  (Z.min (col topLeft) (col cellCoords)))
    (mkCellCoords (Z.max (row bottomRight) (row cellCoords))
                  (Z.max (col bottomRight) (col cellCoords))).

(** The part of the settings object that the selection reads.  A class
    name that is not configured is [None]; [border] is the border
    configuration, of which only the kind of [cornerVisible] is read. *)
Record BorderSettings : Type := mkBorderSettings {
  cornerVisibleIsFunction : bool
}.

Record Settings : Type := mkSettings {
  className : option string;
  layerLevel : nat;
  border : option BorderSettings;
  highlightHeaderClassName : option string;
  highlightRowClassName : option string;
  highlightColumnClassName : option string;
  markIntersections : bool
}.

(** Rendered elements are known by an identifier. *)
Definition Element := nat.

(** The array [[topRow, leftColumn, bottomRow, rightColumn]]. *)
Definition Corners : Type := Z * Z * Z * Z.

(** The entries of [borderEdgesDescriptor]: the empty array, or
    [[settings, firstTd, lastTd, hasTopEdge, hasRightEdge, hasBottomEdge,
    hasLeftEdge]]. *)
Inductive DescriptorEntry : Type :=
| EntrySettings (settings : Settings)
| EntryCell (td : Element)
| EntryFlag (flag : bool).

Record Selection : Type := mkSelection {
  settings : Settings;
  cellRange : option CellRange;
  instanceSelectionHandles : list nat;
  classNames : list (option string);
  borderEdgesDescriptor : list DescriptorEntry
}.

(** [new Selection(settings, cellRange)]. *)
Definition newSelection (settings : Settings) (cellRange : option CellRange)
    : Selection :=
  mkSelection settings cellRange [] [className settings] [].

Definition withCellRange (cellRange : option CellRange) (this : Selection)
    : Selection :=
  mkSelection (settings this) cellRange (instanceSelectionHandles this)
              (classNames this) (borderEdgesDescriptor this).

Definition hasSelectionHandle (this : Selection) : bool :=
  match border (settings this) with
  | Some b => cornerVisibleIsFunction b
  | None => false
  end.

Definition isEmpty (this : Selection) : bool :=
  match cellRange this with
  | None => true
  | Some _ => false
  end.

Definition add (coords : CellCoords) (this : Selection) : Selection :=
  match cellRange this with
  | None => withCellRange (Some (newCellRange coords)) this
  | Some range => withCellRange (Some (expand coords range)) this
  end.

(** [replace] returns the selection and the boolean result. *)
Definition replace (oldCoords newCoords : CellCoords) (this : Selection)
    : Selection * bool :=
  match cellRange this with
  | Some range =>
      if isEqual (from range) oldCoords then
        (withCellRange (Some (mkCellRange newCoords (to range))) this, true)
      else if isEqual (to range) oldCoords then
        (withCellRange (Some (mkCellRange (from range) newCoords)) this, true)
      else (this, false)
  | None => (this, false)
  end.

Definition clear (this : Selection) : Selection :=
  withCellRange None this.

(** Reading a corner of a null range throws. *)
Definition getCorners (this : Selection) : Completion Corners :=
  match cellRange this with
  | Some range =>
      let topLeft := getTopLeftCorner range in
      let bottomRight := getBottomRightCorner range in
      Normal (row topLeft, col topLeft, row bottomRight, col bottomRight)
  | None => Thrown "TypeError"
  end.

Definition getBorderEdgesDescriptor (this : Selection)
    : list DescriptorEntry :=
  borderEdgesDescriptor this.

(** Coordinates added one at a time, first to last. *)
Definition addAll (coords : list CellCoords) (this : Selection) : Selection :=
  fold_left (fun acc c => add c acc) coords this.

(** The least and greatest of a list of integers, given a first one. *)
Definition minimumOf (first : Z) (others : list Z) : Z :=
  fold_right Z.min first others.

Definition maximumOf (first : Z) (others : list Z) : Z :=
  fold_right Z.max first others.

(** *** The collaborators of [draw] *)

(** What a cell lookup returns: the rendered element, a number when the
    cell is not rendered, or [undefined]. *)
Inductive CellLookup : Type :=
| CellElement (td : Element)
| CellNumber (code : Z)
| CellUndefined.

(** What [draw] reads of a neighbouring overlay table. *)
Record NeighbourTable : Type := mkNeighbourTable {
  neighbourFirstVisibleRow : Z;
  neighbourLastVisibleRow : Z;
  neighbourFirstVisibleColumn : Z
}.

(** [wotInstance.wtTable].  The last rendered row and column are [null]
    ([None]) when nothing is rendered; a neighbour-table method that the
    table does not have is [None].  The methods of the table and of the
    instance are code of the rendering engine: they are taken to return
    without throwing. *)
Record Table : Type := mkTable {
  getRenderedRowsCount : Z;
  getRenderedColumnsCount : Z;
  getFirstRenderedRow : Z;
  getFirstRenderedColumn : Z;
  getLastRenderedRow : option Z;
  getLastRenderedColumn : option Z;
  getFirstVisibleRow : Z;
  getLastVisibleRow : Z;
  getLastVisibleColumn : Z;
  eastNeighbourTable : option NeighbourTable;
  southNeighbourTable : option NeighbourTable;
  northNeighbourTable : option NeighbourTable;
  diagonalNeighbourTable : option NeighbourTable;
  getCell : CellCoords -> CellLookup;
  getColumnHeader : Z -> option Element;
  getRowHeader : Z -> option Element;
  rowRenderedToSource : Z -> Z;
  columnRenderedToSource : Z -> Z
}.

(** [wotInstance]: [getCellAnywhere] is [wotInstance.getCell(coords, true)],
    [onAfterDrawSelection] the setting of that name, which gives a class
    name or something that is not a string ([None]). *)
Record WalkontableInstance : Type := mkWalkontableInstance {
  instanceId : nat;
  wtTable : Table;
  getCellAnywhere : CellCoords -> CellLookup;
  onAfterDrawSelection : Z -> Z -> Corners -> nat -> option string
}.

(** The place in [draw] from which a class is added. *)
Inductive Site : Type :=
| ColumnHeaderSite
| ColumnBandSite
| RowHeaderSite
| RowBandSite
| SelectedCellSite
| AdditionalClassSite.

(** The calls that [draw] makes to its collaborators, in order. *)
Inductive Effect : Type :=
| AddClass (site : Site) (element : Element) (classNames : list string)
| BeforeDrawBorders (corners : Corners) (className : option string)
| HandleCreated (instance : nat)
| HandleAppear (instance : nat) (corners : Corners)
| HandleDisappear (instance : nat).

(** The selection object and the classes of the rendered elements. *)
Record DrawState : Type := mkDrawState {
  selection : Selection;
  classesOf : Element -> list string
}.

(** A computation that reads and updates the state, records its calls to
    the collaborators, and may throw. *)
Definition Draw (A : Type) : Type :=
  DrawState -> Completion (A * DrawState * list Effect).

#[global] Instance Draw_ret : MRet Draw :=
  fun A (value : A) s => Normal (value, s, []).

#[global] Instance Draw_bind : MBind Draw :=
  fun A B (f : A -> Draw B) (m : Draw A) s =>
    match m s with
    | Normal (value, s1, log1) =>
        match f value s1 with
        | Normal (result, s2, log2) => Normal (result, s2, log1 ++ log2)
        | Thrown error => Thrown error
        end
    | Thrown error => Thrown error
    end.

Definition throw {A} (error : string) : Draw A :=
  fun _ => Thrown error.

Definition getThis : Draw Selection :=
  fun s => Normal (selection s, s, []).

Definition getClassesOf (element : Element) : Draw (list string) :=
  fun s => Normal (classesOf s element, s, []).

Definition updateThis (f : Selection -> Selection) : Draw unit :=
  fun s => Normal (tt, mkDrawState (f (selection s)) (classesOf s), []).

Definition emitEffect (effect : Effect) : Draw unit :=
  fun s => Normal (tt, s, [effect]).

Definition liftCompletion {A} (c : Completion A) : Draw A :=
  match c with
  | Normal value => mret value
  | Thrown error => throw error
  end.

Fixpoint forEach {A} (items : list A) (body : A -> Draw unit) : Draw unit :=
  match items with
  | [] => mret tt
  | item :: rest => body item;; forEach rest body
  end.

(** [for (let i = first; i <= last; i += 1) body(i)]. *)
Definition forRange (first last : Z) (body : Z -> Draw unit) : Draw unit :=
  forEach (seqZ first (last - first + 1)) body.

(** Truthiness of a class name and of a number; [null] as a number. *)
Definition truthyString (s : option string) : bool :=
  match s with
  | Some s => negb (String.eqb s EmptyString)
  | None => false
  end.

Definition truthyNumber (n : Z) : bool := negb (n =? 0)%Z.

Definition nullToNumber (n : option Z) : Z := default 0%Z n.

(** Modelled from the spec: the helpers [addClass] and [hasClass] of
    [helpers/dom/element.js] are not among the sources.  [addClass]
    attaches the given class names, those that are non-empty strings, to
    the element, and is idempotent on a name already attached. *)
Definition presentClassNames (classNames : list (option string))
    : list string :=
  omap (fun c => if truthyString c then c else None) classNames.

(** Modelled from the spec: [addClass] of [helpers/dom/element.js],
    recorded with the site of the call. *)
Definition addClass (site : Site) (element : Element)
    (classNames : list (option string)) : Draw unit :=
  fun s =>
    let present := presentClassNames classNames in
    Normal (tt,
            mkDrawState (selection s)
              (fun e => if Nat.eqb e element
                        then list_union (classesOf s e) present
                        else classesOf s e),
            [AddClass site element present]).

(** Modelled from the spec: [hasClass] of [helpers/dom/element.js]. *)
Definition hasClass (classes : list string) (className : option string)
    : bool :=
  match className with
  | Some c => bool_decide (c ∈ classes)
  | None => false
  end.

(** *** Class names *)

(** The template [`${baseClassName}-${index}`]. *)
Definition suffixed (baseClassName : option string) (index : nat) : string :=
  default "undefined"%string baseClassName +:+ "-" +:+ pretty index.

(** [calcClassName(element, previousIndex)] for [previousIndex >= 0], on
    an element with the given classes. *)
Fixpoint calcClassNameFrom (baseClassName : option string)
    (classes : list string) (previousIndex : nat) : option string :=
  match previousIndex with
  | 0 => baseClassName
  | S index =>
      let previousClassName :=
        match index with
        | 0 => baseClassName
        | _ => Some (suffixed baseClassName index)
        end in
      if hasClass classes previousClassName
      then Some (suffixed baseClassName (index + 1))
      else calcClassNameFrom baseClassName classes index
  end.

(** [calcClassName(element)]: the layer level, a natural number, is the
    first index; at level 0 the base class name is returned. *)
Definition linearClassNameGenerator (baseClassName : option string)
    (layerLevelOwner : nat) (classes : list string) : option string :=
  if Nat.eqb layerLevelOwner 0 then baseClassName
  else calcClassNameFrom baseClassName classes layerLevelOwner.

Definition classNameGenerator (this : Selection) (classes : list string)
    : option string :=
  linearClassNameGenerator (className (settings this))
    (layerLevel (settings this)) classes.

Definition pushClassName (cellClassName : option string) (this : Selection)
    : Selection :=
  mkSelection (settings this) (cellRange this) (instanceSelectionHandles this)
              (classNames this ++ [cellClassName]) (borderEdgesDescriptor this).

Definition addClassAtCoords (site : Site) (wotInstance : WalkontableInstance)
    (sourceRow sourceColumn : Z) (className : string)
    (markIntersections : bool) : Draw unit :=
  match getCell (wtTable wotInstance) (mkCellCoords sourceRow sourceColumn) with
  | CellElement TD =>
      if markIntersections then
        this ← getThis;
        classes ← getClassesOf TD;
        let cellClassName := classNameGenerator this classes in
        (if bool_decide (cellClassName ∈ classNames this) then mret tt
         else updateThis (pushClassName cellClassName));;
        addClass site TD [cellClassName]
      else addClass site TD [Some className]
  | _ => mret tt
  end.

Definition addClassIfElemExists (site : Site) (elem : option Element)
    (classNames : list (option string)) : Draw unit :=
  match elem with
  | Some element => addClass site element classNames
  | None => mret tt
  end.

(** *** Selection handles *)

Definition getSelectionHandleIfExists (wotInstance : WalkontableInstance)
    (this : Selection) : bool :=
  bool_decide (instanceId wotInstance ∈ instanceSelectionHandles this).

Definition setSelectionHandle (instance : nat) (this : Selection) : Selection :=
  mkSelection (settings this) (cellRange this)
              (instanceSelectionHandles this ++ [instance])
              (classNames this) (borderEdgesDescriptor this).

Definition getSelectionHandle (wotInstance : WalkontableInstance) : Draw unit :=
  this ← getThis;
  if getSelectionHandleIfExists wotInstance this then mret tt
  else
    emitEffect (HandleCreated (instanceId wotInstance));;
    updateThis (setSelectionHandle (instanceId wotInstance)).

(** *** Relevant cells *)

(** Calling a neighbour-table method that the table does not have
    throws. *)
Definition callNeighbourTable (neighbour : option NeighbourTable) : Draw unit :=
  match neighbour with
  | Some _ => mret tt
  | None => throw "TypeError"
  end.

Definition toRelevantCell (td : CellLookup) : option Element :=
  match td with
  | CellElement element => Some element
  | CellNumber _ => None
  | CellUndefined => None
  end.

Definition getRelevantCell (wotInstance : WalkontableInstance) (row col : Z)
    (firstRenderedRow : Z) (lastRenderedRow lastRenderedColumn : option Z)
    : Draw (option Element) :=
  let table := wtTable wotInstance in
  let lastRow := nullToNumber lastRenderedRow in
  let lastColumn := nullToNumber lastRenderedColumn in
  match getCell table (mkCellCoords row col) with
  | CellNumber _ =>
      (if ((row >? lastRow) && (col >? lastColumn)
           || (col >? lastColumn) && (row <? firstRenderedRow))%Z
       then callNeighbourTable (diagonalNeighbourTable table)
       else if (row >? lastRow)%Z
       then callNeighbourTable (southNeighbourTable table)
       else if (col >? lastColumn)%Z
       then callNeighbourTable (eastNeighbourTable table)
       else if (row <? firstRenderedRow)%Z
       then callNeighbourTable (northNeighbourTable table)
       else mret tt);;
      mret (toRelevantCell (getCellAnywhere wotInstance (mkCellCoords row col)))
  | td => mret (toRelevantCell td)
  end.

(** *** [draw] *)

Definition firstRowOf (corners : Corners) : Z := corners.1.1.1.
Definition firstColumnOf (corners : Corners) : Z := corners.1.1.2.
Definition lastRowOf (corners : Corners) : Z := corners.1.2.
Definition lastColumnOf (corners : Corners) : Z := corners.2.

Definition renderingOffsetEast (table : Table) : Z :=
  match eastNeighbourTable table with
  | Some east =>
      if (neighbourFirstVisibleColumn east =? getLastVisibleColumn table + 1)%Z
      then 1%Z else 0%Z
  | None => 0%Z
  end.

Definition renderingOffsetSouth (table : Table) : Z :=
  match southNeighbourTable table with
  | Some south =>
      if (neighbourFirstVisibleRow south =? getLastVisibleRow table + 1)%Z
      then 1%Z else 0%Z
  | None => 0%Z
  end.

Definition renderingOffsetNorth (table : Table) : Z :=
  match northNeighbourTable table with
  | Some north =>
      if (neighbourLastVisibleRow north =? getFirstVisibleRow table - 1)%Z
      then (-1)%Z else 0%Z
  | None => 0%Z
  end.

(** The selection clipped to the rendered window. *)
Definition highlightFirstRenderedRow (table : Table) (corners : Corners) : Z :=
  Z.max (firstRowOf corners)
        (getFirstRenderedRow table + renderingOffsetNorth table).

Definition highlightFirstRenderedColumn (table : Table) (corners : Corners)
    : Z :=
  Z.max (firstColumnOf corners) (getFirstRenderedColumn table).

Definition highlightLastRenderedRow (table : Table) (corners : Corners) : Z :=
  Z.min (lastRowOf corners)
        (nullToNumber (getLastRenderedRow table) + renderingOffsetSouth table).

Definition highlightLastRenderedColumn (table : Table) (corners : Corners)
    : Z :=
  Z.min (lastColumnOf corners)
        (nullToNumber (getLastRenderedColumn table) + renderingOffsetEast table).

(** The block guarded by [renderedColumns && (highlightHeaderClassName ||
    highlightColumnClassName)]. *)
Definition highlightColumns (wotInstance : WalkontableInstance)
    (this : Selection) (corners : Corners) : Draw unit :=
  let table := wtTable wotInstance in
  let renderedRows := getRenderedRowsCount table in
  let renderedColumns := getRenderedColumnsCount table in
  let headerClass := highlightHeaderClassName (settings this) in
  let columnClass := highlightColumnClassName (settings this) in
  if truthyNumber renderedColumns
     && (truthyString headerClass || truthyString columnClass)
  then
    forRange (highlightFirstRenderedColumn table corners)
             (highlightLastRenderedColumn table corners)
      (fun sourceColumn =>
         addClassIfElemExists ColumnHeaderSite
           (getColumnHeader table sourceColumn) [headerClass; columnClass];;
         if truthyString columnClass then
           forRange 0 (renderedRows - 1)
             (fun renderedRow =>
                if ((renderedRow <? highlightFirstRenderedRow table corners)
                    || (renderedRow >? highlightLastRenderedRow table corners))%Z
                then
                  addClassAtCoords ColumnBandSite wotInstance
                    (rowRenderedToSource table renderedRow) sourceColumn
                    (default EmptyString columnClass) false
                else mret tt)
         else mret tt)
  else mret tt.

(** The block guarded by [renderedRows && (highlightHeaderClassName ||
    highlightRowClassName)]. *)
Definition highlightRows (wotInstance : WalkontableInstance)
    (this : Selection) (corners : Corners) : Draw unit :=
  let table := wtTable wotInstance in
  let renderedRows := getRenderedRowsCount table in
  let renderedColumns := getRenderedColumnsCount table in
  let headerClass := highlightHeaderClassName (settings this) in
  let rowClass := highlightRowClassName (settings this) in
  if truthyNumber renderedRows
     && (truthyString headerClass || truthyString rowClass)
  then
    forRange (highlightFirstRenderedRow table corners)
             (highlightLastRenderedRow table corners)
      (fun sourceRow =>
         addClassIfElemExists RowHeaderSite
           (getRowHeader table sourceRow) [headerClass; rowClass];;
         if truthyString rowClass then
           forRange 0 (renderedColumns - 1)
             (fun renderedColumn =>
                if ((renderedColumn <? highlightFirstRenderedColumn table corners)
                    || (renderedColumn >? highlightLastRenderedColumn table corners))%Z
                then
                  addClassAtCoords RowBandSite wotInstance sourceRow
                    (columnRenderedToSource table renderedColumn)
                    (default EmptyString rowClass) false
                else mret tt)
         else mret tt)
  else mret tt.

Definition withBorderEdgesDescriptor (descriptor : list DescriptorEntry)
    (this : Selection) : Selection :=
  mkSelection (settings this) (cellRange this) (instanceSelectionHandles this)
              (classNames this) descriptor.

(** The four edge flags, in the order top, right, bottom, left. *)
Definition hasTopEdge (table : Table) (corners : Corners) : bool :=
  (highlightFirstRenderedRow table corners =? firstRowOf corners)%Z.

Definition hasRightEdge (table : Table) (corners : Corners) : bool :=
  (highlightLastRenderedColumn table corners =? lastColumnOf corners)%Z.

Definition hasBottomEdge (table : Table) (corners : Corners) : bool :=
  (highlightLastRenderedRow table corners =? lastRowOf corners)%Z.

Definition hasLeftEdge (table : Table) (corners : Corners) : bool :=
  (highlightFirstRenderedColumn table corners =? firstColumnOf corners)%Z.

(** The array [[this.settings, firstTd, lastTd, hasTopEdge, hasRightEdge,
    hasBottomEdge, hasLeftEdge]]. *)
Definition edgesDescriptor (settings : Settings) (table : Table)
    (corners : Corners) (firstTd lastTd : Element) : list DescriptorEntry :=
  [EntrySettings settings; EntryCell firstTd; EntryCell lastTd;
   EntryFlag (hasTopEdge table corners);
   EntryFlag (hasRightEdge table corners);
   EntryFlag (hasBottomEdge table corners);
   EntryFlag (hasLeftEdge table corners)].

(** The statement guarded by [this.settings.border && first <= last] on
    rows and columns: it sets the descriptor when both corner cells are
    found. *)
Definition describeBorderEdges (wotInstance : WalkontableInstance)
    (this : Selection) (corners : Corners) : Draw unit :=
  let table := wtTable wotInstance in
  let firstRow := highlightFirstRenderedRow table corners in
  let firstColumn := highlightFirstRenderedColumn table corners in
  let lastRow := highlightLastRenderedRow table corners in
  let lastColumn := highlightLastRenderedColumn table corners in
  if bool_decide (is_Some (border (settings this)))
     && (firstRow <=? lastRow)%Z && (firstColumn <=? lastColumn)%Z
  then
    firstTd ← getRelevantCell wotInstance firstRow firstColumn
                (getFirstRenderedRow table) (getLastRenderedRow table)
                (getLastRenderedColumn table);
    lastTd ← (if ((firstRow =? lastRow) && (firstColumn =? lastColumn))%Z
              then mret firstTd
              else getRelevantCell wotInstance lastRow lastColumn
                     (getFirstRenderedRow table) (getLastRenderedRow table)
                     (getLastRenderedColumn table));
    match firstTd, lastTd with
    | Some first, Some last =>
        updateThis
          (withBorderEdgesDescriptor
             (edgesDescriptor (settings this) table corners first last))
    | _, _ => mret tt
    end
  else mret tt.

(** The two nested loops over the clipped rectangle. *)
Definition selectCells (wotInstance : WalkontableInstance)
    (this : Selection) (corners : Corners) : Draw unit :=
  let table := wtTable wotInstance in
  let firstRow := highlightFirstRenderedRow table corners in
  let firstColumn := highlightFirstRenderedColumn table corners in
  let lastRow := highlightLastRenderedRow table corners in
  let lastColumn := highlightLastRenderedColumn table corners in
  let selectionClass := className (settings this) in
  forRange firstRow lastRow
    (fun sourceRow =>
       forRange firstColumn lastColumn
         (fun sourceColumn =>
            (if ((sourceRow >=? firstRow) && (sourceRow <=? lastRow)
                 && (sourceColumn >=? firstColumn)
                 && (sourceColumn <=? lastColumn))%Z
                && truthyString selectionClass
             then
               addClassAtCoords SelectedCellSite wotInstance sourceRow
                 sourceColumn (default EmptyString selectionClass)
                 (markIntersections (settings this))
             else mret tt);;
            if truthyString selectionClass then
              match onAfterDrawSelection wotInstance sourceRow sourceColumn
                      corners (layerLevel (settings this)) with
              | Some additionalSelectionClass =>
                  addClassAtCoords AdditionalClassSite wotInstance sourceRow
                    sourceColumn additionalSelectionClass false
              | None => mret tt
              end
            else mret tt)).

(** [draw] on a selection that is not empty, from the first highlighting
    block to the selection handle. *)
Definition drawSelection (wotInstance : WalkontableInstance)
    (this : Selection) (corners : Corners) : Draw unit :=
  let table := wtTable wotInstance in
  highlightColumns wotInstance this corners;;
  highlightRows wotInstance this corners;;
  (if truthyNumber (getRenderedRowsCount table)
      && truthyNumber (getRenderedColumnsCount table)
   then
     describeBorderEdges wotInstance this corners;;
     selectCells wotInstance this corners
   else mret tt);;
  emitEffect (BeforeDrawBorders corners (className (settings this)));;
  if hasSelectionHandle this then
    getSelectionHandle wotInstance;;
    emitEffect (HandleAppear (instanceId wotInstance) corners)
  else mret tt.

Definition draw (wotInstance : WalkontableInstance) : Draw unit :=
  updateThis (withBorderEdgesDescriptor []);;
  this ← getThis;
  if isEmpty this then
    if hasSelectionHandle this then
      if getSelectionHandleIfExists wotInstance this
      then emitEffect (HandleDisappear (instanceId wotInstance))
      else mret tt
    else mret tt
  else
    corners ← liftCompletion (getCorners this);
    drawSelection wotInstance this corners.

(** The classes added where the selected cells are marked. *)
Definition isBodySite (site : Site) : bool :=
  match site with
  | SelectedCellSite | AdditionalClassSite => true
  | _ => false
  end.

Definition isRowSite (site : Site) : bool :=
  match site with
  | RowHeaderSite | RowBandSite => true
  | _ => false
  end.

Definition isColumnSite (site : Site) : bool :=
  match site with
  | ColumnHeaderSite | ColumnBandSite => true
  | _ => false
  end.

(** The effect is not a class added from a site of the given kind. *)
Definition addsNoClassAt (kind : Site -> bool) (effect : Effect) : Prop :=
  match effect with
  | AddClass site _ _ => kind site = false
  | _ => True
  end.

(** The effect is a class added from a site of the given kind. *)
Definition addsClassAt (kind : Site -> bool) (effect : Effect) : Prop :=
  match effect with
  | AddClass site _ _ => kind site = true
  | _ => False
  end.

(** The effect is not the addition of a class. *)
Definition addsNoClass (effect : Effect) : Prop :=
  match effect with
  | AddClass _ _ _ => False
  | _ => True
  end.

(** A computation that returns normally from every state, leaves the
    border-edges descriptor as it is, and makes only calls that satisfy
    [allowed]. *)
Definition quiet {A} (allowed : Effect -> Prop) (m : Draw A) : Prop :=
  forall s, exists value s' log,
    m s = Normal (value, s', log)
    /\ borderEdgesDescriptor (selection s') = borderEdgesDescriptor (selection s)
    /\ Forall allowed log.

(** The selection, the rendered window and the settings of the scenario
    of a single cell outside the rendered rows. *)
Definition sampleSettings : Settings :=
  mkSettings (Some "area"%string) 0 (Some (mkBorderSettings false))
             (Some "ht__highlight"%string) None None false.

Definition sampleSelection : Selection :=
  newSelection sampleSettings
    (Some (newCellRange (mkCellCoords 10 10))).

Definition sampleTable : Table :=
  mkTable 9 12 0 0 (Some 8%Z) (Some 11%Z) 0 8 11 None None None None
          (fun coords =>
             if ((0 <=? row coords) && (row coords <=? 8)
                 && (0 <=? col coords) && (col coords <=? 11))%Z
             then CellElement (Z.to_nat (row coords * 12 + col coords))
             else CellNumber (-1))
          (fun column => Some (Z.to_nat (1000 + column)))
          (fun row => Some (Z.to_nat (2000 + row)))
          (fun rendered => rendered)
          (fun rendered => rendered).

Definition sampleInstance : WalkontableInstance :=
  mkWalkontableInstance 0 sampleTable (fun _ => CellUndefined)
    (fun _ _ _ _ => None).

Definition sampleState (this : Selection) : DrawState :=
  mkDrawState this (fun _ => []).

(** A selection of rows 2 to 20 and columns 3 to 5, cut by the sample
    window at its last rendered row. *)
Definition tallSelection : Selection :=
  newSelection sampleSettings
    (Some (mkCellRange (mkCellCoords 2 3) (mkCellCoords 20 5))).

(** The state in which a call has returned, and the calls it has made. *)
Definition stateAfter {A} (completion : Completion (A * DrawState * list Effect))
    (otherwise : DrawState) : DrawState :=
  match completion with
  | Normal (_, s, _) => s
  | Thrown _ => otherwise
  end.

Definition effectsOf {A} (completion : Completion (A * DrawState * list Effect))
    : list Effect :=
  match completion with
  | Normal (_, _, log) => log
  | Thrown _ => []
  end.

(** An empty selection, and one from (1,1) to (3,3). *)
Definition emptySelection : Selection :=
  newSelection sampleSettings None.

Definition smallSelection : Selection :=
  newSelection sampleSettings
    (Some (mkCellRange (mkCellCoords 1 1) (mkCellCoords 3 3))).

Definition returnsNormally {A}
    (completion : Completion (A * DrawState * list Effect)) : bool :=
  match completion with
  | Normal _ => true
  | Thrown _ => false
  end.

(** A window continued by an east and a south neighbour, on a table
    without the diagonal method, and a selection that reaches beyond the
    window on both sides. *)
Definition paneTable : Table :=
  mkTable 9 12 0 0 (Some 8%Z) (Some 11%Z) 0 8 11
          (Some (mkNeighbourTable 0 0 12)) (Some (mkNeighbourTable 9 0 0))
          None None
          (fun _ => CellNumber (-1))
          (fun _ => None) (fun _ => None)
          (fun rendered => rendered) (fun rendered => rendered).

Definition paneInstance : WalkontableInstance :=
  mkWalkontableInstance 1 paneTable (fun _ => CellUndefined)
    (fun _ _ _ _ => None).

Definition wideSelection : Selection :=
  newSelection sampleSettings
    (Some (mkCellRange (mkCellCoords 2 3) (mkCellCoords 20 30))).

End Walkontable.

(** ** Meta helpers ([src/unnamed/part_000]) *)

From stdpp Require Import gmap.

Module MetaHelpers.
Import Walkontable.

(** The value of an own property of a meta object, as far as
    [expandMetaType] tells values apart: an object with its own
    properties, a string, or any other value ([null] among them: the
    loop over it does not run).  The values of the properties of a type
    object are not inspected. *)
Inductive MetaValue (V : Type) : Type :=
| ObjectValue (properties : gmap string V)
| StringValue (text : string)
| OtherValue (value : V).
Arguments ObjectValue {V} properties.
Arguments StringValue {V} text.
Arguments OtherValue {V} value.

(** The loop [for (const i in type)] with its test and its assignment
    [expandedType[i] = type[i]]: an own property of [type] that the meta
    object does not have itself becomes an own property of
    [expandedType].  The key [__proto__] is the exception: [expandedType]
    is a plain object, on which that assignment runs the setter inherited
    from [Object.prototype] and makes no own property. *)
Definition missingProperties {V} (metaObject : gmap string (MetaValue V))
    (type : gmap string V) : gmap string V :=
  filter (fun entry => metaObject !! entry.1 = None
                       /\ entry.1 <> "__proto__"%string) type.

(** [expandMetaType(metaObject)].  The meta object is given by its own
    properties.  [getCellType], of [cellTypes], is not among the sources:
    it is a parameter that gives the type object registered under a name,
    or throws.  [Normal None] is the result [undefined]. *)
Definition expandMetaType {V}
    (getCellType : string -> Completion (gmap string V))
    (metaObject : gmap string (MetaValue V))
    : Completion (option (gmap string V)) :=
  match metaObject !! "type"%string with
  | None => Normal None
  | Some (ObjectValue type) =>
      Normal (Some (missingProperties metaObject type))
  | Some (StringValue name) =>
      match getCellType name with
      | Normal type => Normal (Some (missingProperties metaObject type))
      | Thrown error => Thrown error
      end
  | Some (OtherValue _) => Normal (Some ∅)
  end.

(** The meta object after the expanded properties were assigned to it. *)
Definition assignExpanded {V} (expandedType : gmap string V)
    (metaObject : gmap string (MetaValue V)) : gmap string (MetaValue V) :=
  (OtherValue <$> expandedType) ∪ metaObject.

(** A registry with the cell type [numeric], and a meta object that names
    it and sets a renderer of its own. *)
Definition sampleType : gmap string nat :=
  <["renderer"%string := 1]> (<["validator"%string := 2]> ∅).

Definition sampleCellTypes (name : string) : Completion (gmap string nat) :=
  if String.eqb name "numeric"
  then Normal sampleType
  else Thrown "unknown cell type".

Definition sampleMeta : gmap string (MetaValue nat) :=
  <["type"%string := StringValue "numeric"]>
    (<["renderer"%string := OtherValue 7]> ∅).

End MetaHelpers.

(** ** Vocabulary for the properties of [draw] *)

Module RenderFacts.
Import Walkontable.

(** The cell lies in the selection and in the rendered window, the window
    being extended by the offsets of its neighbours. *)
Definition inClippedRectangle (table : Table) (corners : Corners)
    (r c : Z) : Prop :=
  (firstRowOf corners <= r <= lastRowOf corners
   /\ firstColumnOf corners <= c <= lastColumnOf corners
   /\ getFirstRenderedRow table + renderingOffsetNorth table <= r
   /\ r <= nullToNumber (getLastRenderedRow table) + renderingOffsetSouth table
   /\ getFirstRenderedColumn table <= c
   /\ c <= nullToNumber (getLastRenderedColumn table)
           + renderingOffsetEast table)%Z.

(** A class added at the selected cells goes to the element of a cell of
    the clipped rectangle. *)
Definition marksWithin (wotInstance : WalkontableInstance) (corners : Corners)
    (effect : Effect) : Prop :=
  match effect with
  | AddClass site element _ =>
      isBodySite site = true ->
      exists r c,
        getCell (wtTable wotInstance) (mkCellCoords r c) = CellElement element
        /\ inClippedRectangle (wtTable wotInstance) corners r c
  | _ => True
  end.

Definition isHeaderSite (site : Site) : bool :=
  match site with
  | ColumnHeaderSite | RowHeaderSite => true
  | _ => false
  end.

(** The effect is the addition of a class or the hook before the borders,
    not a call on a selection handle. *)
Definition touchesNoHandle (effect : Effect) : Prop :=
  match effect with
  | AddClass _ _ _ | BeforeDrawBorders _ _ => True
  | _ => False
  end.

(** The effect is not the addition of a class, or adds it to a header. *)
Definition addsOnlyToHeaders (effect : Effect) : Prop :=
  match effect with
  | AddClass site _ _ => isHeaderSite site = true
  | _ => True
  end.

(** What a step of [draw] may do to the state: the settings and the range
    stay, the recorded class names and the selection handles are only
    extended, and no element loses a class. *)
Definition grows (s s' : DrawState) : Prop :=
  settings (selection s') = settings (selection s)
  /\ cellRange (selection s') = cellRange (selection s)
  /\ classNames (selection s) `prefix_of` classNames (selection s')
  /\ instanceSelectionHandles (selection s)
     `prefix_of` instanceSelectionHandles (selection s')
  /\ (forall element, classesOf s element ⊆ classesOf s' element).

(** No class name and no selection handle is recorded twice. *)
Definition recordsOnce (s : DrawState) : Prop :=
  NoDup (classNames (selection s))
  /\ NoDup (instanceSelectionHandles (selection s)).

(** Whenever the computation returns, the state has only grown, and what
    was recorded once is still recorded once. *)
Definition steady {A} (m : Draw A) : Prop :=
  forall s value s' log,
    m s = Normal (value, s', log) ->
    grows s s' /\ (recordsOnce s -> recordsOnce s').

(** The class of a lower layer [j] on a cell: the base class for layer 0,
    the suffixed class otherwise. *)
Definition layerClassName (baseClassName : option string) (j : nat)
    : option string :=
  match j with
  | 0 => baseClassName
  | _ => Some (suffixed baseClassName j)
  end.

(** A selection of three layers deep with intersections marked, and a
    selection with a selection handle. *)
Definition layeredSettings : Settings :=
  mkSettings (Some "area"%string) 3 None None None None true.

Definition handleSettings : Settings :=
  mkSettings (Some "current"%string) 0 (Some (mkBorderSettings true))
             None None None false.

Definition handleSelection : Selection :=
  newSelection handleSettings (Some (newCellRange (mkCellCoords 1 1))).

Definition plainSettings : Settings :=
  mkSettings (Some "area"%string) 0 None (Some "ht__highlight"%string)
             None None false.

Definition plainSelection : Selection :=
  newSelection plainSettings
    (Some (mkCellRange (mkCellCoords 2 3) (mkCellCoords 20 30))).

(** A table on which no row is rendered. *)
Definition emptyTable : Table :=
  mkTable 0 12 (-1) 0 None (Some 11%Z) (-1) (-1) 11 None None None None
          (fun _ => CellNumber (-1))
          (fun column => Some (Z.to_nat (1000 + column)))
          (fun _ => None)
          (fun rendered => rendered) (fun rendered => rendered).

Definition emptyInstance : WalkontableInstance :=
  mkWalkontableInstance 2 emptyTable (fun _ => CellUndefined)
    (fun _ _ _ _ => None).

End RenderFacts.

(* ================================================================== *)
(** * Properties *)
(* ================================================================== *)

Import JsArray PhysicallyIndexed IndexMaps MapCollections Walkontable.

Example scenario_insert :
  getListWithInsertedItems [0; 1; 2; 3; 4]%Z 2 [2; 3]%Z
    (ValueFunction (fun _ _ => (-1)%Z))
  = [0; 1; -1; -1; 2; 3; 4]%Z.
Proof. reflexivity. Qed.

Example scenario_remove :
  getListWithRemovedItems [0; 1; -1; -1; 2; 3; 4]%Z [0; 3; 6]%Z
  = [1; -1; 2; 3]%Z.
Proof. reflexivity. Qed.

(** ** Facts about the array primitives *)

Section SliceFacts.
Context {A : Type}.
Implicit Types (l : list A) (k : Z).

Lemma relativeIndex_bounds len k :
  (0 <= len)%Z -> (0 <= relativeIndex len k <= len)%Z.
Proof. unfold relativeIndex. destruct (Z.ltb_spec k 0); lia. Qed.

Lemma relativeIndex_in_range len k :
  (0 <= k <= len)%Z -> relativeIndex len k = k.
Proof. unfold relativeIndex. destruct (Z.ltb_spec k 0); lia. Qed.

Lemma splicePosition_le l k : splicePosition l k <= length l.
Proof.
  unfold splicePosition.
  pose proof (relativeIndex_bounds (Z.of_nat (length l)) k
                (Nat2Z.is_nonneg _)). lia.
Qed.

Lemma slice_head l k :
  slice l (Some 0%Z) (Some k) = take (splicePosition l k) l.
Proof.
  unfold slice, splicePosition. cbv [default from_option id].
  rewrite (relativeIndex_in_range _ 0) by lia.
  rewrite Z.sub_0_r. reflexivity.
Qed.

Lemma slice_tail l k :
  slice l (Some k) None = drop (splicePosition l k) l.
Proof.
  unfold slice, splicePosition. cbv [default from_option id].
  pose proof (relativeIndex_bounds (Z.of_nat (length l)) k
                (Nat2Z.is_nonneg _)).
  apply take_ge. rewrite length_drop. lia.
Qed.

Lemma slice_whole_undefined_end l : slice l (Some 0%Z) None = l.
Proof.
  unfold slice. cbv [default from_option id].
  rewrite (relativeIndex_in_range _ 0) by lia.
  rewrite Z.sub_0_r, Nat2Z.id. cbn [Z.to_nat drop]. apply take_ge. lia.
Qed.

Lemma slice_whole_undefined_start l : slice l None None = l.
Proof. apply slice_whole_undefined_end. Qed.

Lemma arrayFilterFrom_app i l1 l2 (p : A -> nat -> bool) :
  arrayFilterFrom i (l1 ++ l2) p
  = arrayFilterFrom i l1 p ++ arrayFilterFrom (i + length l1) l2 p.
Proof.
  revert i. induction l1 as [|x l1 IH]; intros i; cbn.
  - rewrite Nat.add_0_r. reflexivity.
  - rewrite IH, Nat.add_succ_r. cbn. destruct (p x i); reflexivity.
Qed.

Lemma arrayFilterFrom_all i l (p : A -> nat -> bool) :
  (forall j x, i <= j < i + length l -> p x j = true) ->
  arrayFilterFrom i l p = l.
Proof.
  revert i. induction l as [|x l IH]; intros i Hp; cbn; [reflexivity|].
  rewrite Hp by (cbn; lia). f_equal. apply IH.
  intros j y Hj. apply Hp. cbn. lia.
Qed.

Lemma arrayFilterFrom_none i l (p : A -> nat -> bool) :
  (forall j x, i <= j < i + length l -> p x j = false) ->
  arrayFilterFrom i l p = [].
Proof.
  revert i. induction l as [|x l IH]; intros i Hp; cbn; [reflexivity|].
  rewrite Hp by (cbn; lia). apply IH.
  intros j y Hj. apply Hp. cbn. lia.
Qed.

End SliceFacts.

Lemma includes_true_iff (l : list Z) (x : Z) :
  includes l x = true <-> x ∈ l.
Proof.
  unfold includes. rewrite existsb_exists. split.
  - intros (y & Hy & Heq). apply Z.eqb_eq in Heq. subst.
    by apply list_elem_of_In.
  - intros H. exists x. split; [by apply list_elem_of_In | apply Z.eqb_refl].
Qed.

Lemma includes_seqZ (m : Z) (n : nat) (x : Z) :
  includes (seqZ m (Z.of_nat n)) x = true <-> (m <= x < m + Z.of_nat n)%Z.
Proof. rewrite includes_true_iff, elem_of_seqZ. reflexivity. Qed.

(** ** The ordered list transform *)

Section ListTransform.
Context {V : Type}.
Implicit Types (L : list V) (B : list Z) (v : ValuesMapping V).

Lemma length_newEntries v B : length (newEntries v B) = length B.
Proof. unfold newEntries, mapWithIndex. apply length_imap. Qed.

Lemma lookup_newEntries v B (k : nat) (b : Z) :
  B !! k = Some b -> newEntries v B !! k = Some (insertedValue v b k).
Proof.
  intros Hb. unfold newEntries, mapWithIndex.
  rewrite list_lookup_imap, Hb. reflexivity.
Qed.

(** With a non-empty batch the list is cut at the relative index of the
    first inserted index, whatever that integer is. *)
Lemma inserted_items_shape L (i b0 : Z) (rest : list Z) v :
  getListWithInsertedItems L i (b0 :: rest) v
  = take (splicePosition L b0) L
    ++ newEntries v (b0 :: rest)
    ++ drop (splicePosition L b0) L.
Proof.
  unfold getListWithInsertedItems, firstInsertedIndex. cbn [head].
  rewrite slice_head, slice_tail. reflexivity.
Qed.

Lemma inserted_items_length L i b0 rest v :
  length (getListWithInsertedItems L i (b0 :: rest) v)
  = length L + length (b0 :: rest).
Proof.
  rewrite inserted_items_shape.
  rewrite !length_app, length_newEntries, length_take, length_drop.
  pose proof (splicePosition_le L b0). lia.
Qed.

Lemma inserted_items_empty_batch L i v :
  getListWithInsertedItems L i [] v = L ++ L.
Proof.
  unfold getListWithInsertedItems, firstInsertedIndex. cbn.
  rewrite slice_whole_undefined_end, slice_whole_undefined_start.
  reflexivity.
Qed.

End ListTransform.

Section ListTransformClaims.
Context {V : Type}.
Implicit Types (L : list V) (B rest : list Z) (v : ValuesMapping V).

Lemma splicePosition_in_range L (b0 : Z) :
  (0 <= b0 <= Z.of_nat (length L))%Z -> splicePosition L b0 = Z.to_nat b0.
Proof.
  intros Hb. unfold splicePosition. by rewrite relativeIndex_in_range.
Qed.

(** With a first index in range the cut is at that index. *)
Lemma inserted_items_in_range L (i b0 : Z) rest v :
  (0 <= b0 <= Z.of_nat (length L))%Z ->
  getListWithInsertedItems L i (b0 :: rest) v
  = take (Z.to_nat b0) L
    ++ newEntries v (b0 :: rest)
    ++ drop (Z.to_nat b0) L.
Proof.
  intros Hb. rewrite inserted_items_shape.
  by rewrite splicePosition_in_range.
Qed.

(** C2.  A physical index is a non-negative integer.  For a non-empty
    batch [B] whose first index [b0] is at most the length of [L], the
    result has [length L + length B] elements; below position [b0] it
    agrees with [L]; position [b0 + k] holds the entry made for the
    [k]-th member [b] of the batch (the plain value, or the function
    applied to [b] and [k]); and the element of [L] at a position
    [j >= b0] is found at [j + length B].  The function builds a new list
    from [L], which it only reads. *)
Theorem inserted_items_spec L (i : Z) (b0 : nat) rest v :
  b0 <= length L ->
  let B := Z.of_nat b0 :: rest in
  let R := getListWithInsertedItems L i B v in
  length R = length L + length B
  /\ (forall j, j < b0 -> R !! j = L !! j)
  /\ (forall k b, B !! k = Some b ->
        R !! (b0 + k) = Some (match v with
                              | PlainValue value => value
                              | ValueFunction fn => fn b k
                              end))
  /\ (forall j, b0 <= j -> R !! (j + length B) = L !! j)
  /\ R = take b0 L ++ newEntries v B ++ drop b0 L.
Proof.
  intros Hb B R.
  assert (HR : R = take b0 L ++ newEntries v B ++ drop b0 L).
  { subst R B. rewrite inserted_items_in_range by lia. by rewrite Nat2Z.id. }
  assert (Htake : length (take b0 L) = b0) by (rewrite length_take; lia).
  split; [apply inserted_items_length|].
  split; [|split; [|split; [|exact HR]]].
  - intros j Hj. rewrite HR, lookup_app_l by lia.
    by apply lookup_take_lt.
  - intros k b Hk. rewrite HR.
    rewrite lookup_app_r by lia. rewrite Htake.
    replace (b0 + k - b0) with k by lia.
    rewrite lookup_app_l
      by (rewrite length_newEntries; by apply lookup_lt_Some in Hk).
    rewrite (lookup_newEntries v B k b Hk). by destruct v.
  - intros j Hj. rewrite HR.
    rewrite lookup_app_r by lia. rewrite Htake.
    rewrite lookup_app_r by (rewrite length_newEntries; lia).
    rewrite length_newEntries, lookup_drop. f_equal. lia.
Qed.

(** C3.  Removing the positions [b0 .. b0 + length B - 1], which the
    batch occupies after the insertion, gives back the original list. *)
Theorem insert_then_remove_roundtrip L (i : Z) (b0 : nat) rest v :
  b0 <= length L ->
  let B := Z.of_nat b0 :: rest in
  getListWithRemovedItems (getListWithInsertedItems L i B v)
    (seqZ (Z.of_nat b0) (Z.of_nat (length B)))
  = L.
Proof.
  intros Hb B.
  subst B. rewrite inserted_items_in_range by lia. rewrite Nat2Z.id.
  assert (Htake : length (take b0 L) = b0) by (rewrite length_take; lia).
  unfold getListWithRemovedItems, arrayFilter.
  rewrite !arrayFilterFrom_app, Htake, length_newEntries. cbn [Nat.add].
  rewrite arrayFilterFrom_all, arrayFilterFrom_none, arrayFilterFrom_all.
  - cbn [app]. apply take_drop.
  - intros j x Hj. apply negb_true_iff, not_true_iff_false.
    rewrite includes_seqZ. lia.
  - intros j x Hj. rewrite length_newEntries in Hj.
    apply negb_false_iff, includes_seqZ. lia.
  - intros j x Hj. apply negb_true_iff, not_true_iff_false.
    rewrite includes_seqZ. lia.
Qed.

(** C9.  The parameter [insertionIndex] is never read: for a non-empty
    batch the result is the same for any two values of it, and the
    position of the cut is computed from the first inserted index
    alone. *)
Theorem insertion_index_is_ignored L (i i' : Z) B v :
  B <> [] ->
  getListWithInsertedItems L i B v = getListWithInsertedItems L i' B v
  /\ exists b0 rest, B = b0 :: rest
     /\ getListWithInsertedItems L i B v
        = take (splicePosition L b0) L
          ++ newEntries v B
          ++ drop (splicePosition L b0) L.
Proof.
  intros HB. split; [reflexivity|].
  destruct B as [|b0 rest]; [done|].
  exists b0, rest. split; [reflexivity|]. apply inserted_items_shape.
Qed.

(** C10.  With an empty batch the first inserted index is undefined, both
    slices copy the whole list, and the result is the list followed by
    itself, of twice the length. *)
Theorem empty_batch_duplicates_list L (i : Z) v :
  getListWithInsertedItems L i [] v = L ++ L
  /\ length (getListWithInsertedItems L i [] v) = 2 * length L
  /\ slice L (Some 0%Z) (firstInsertedIndex []) = L
  /\ slice L (firstInsertedIndex []) None = L.
Proof.
  rewrite inserted_items_empty_batch, length_app.
  split; [reflexivity|]. split; [lia|].
  split; [apply slice_whole_undefined_end|apply slice_whole_undefined_start].
Qed.
End ListTransformClaims.

Lemma inserted_items_spec_witness :
  2 <= length [0; 1; 2; 3; 4]%Z
  /\ getListWithInsertedItems [0; 1; 2; 3; 4]%Z 2 [2; 3]%Z
       (ValueFunction (fun _ _ => (-1)%Z))
     = take 2 [0; 1; 2; 3; 4]%Z
       ++ newEntries (ValueFunction (fun _ _ => (-1)%Z)) [2; 3]%Z
       ++ drop 2 [0; 1; 2; 3; 4]%Z.
Proof.
  assert (H : 2 <= length [0; 1; 2; 3; 4]%Z) by (simpl; lia).
  split; [exact H|].
  exact (proj2 (proj2 (proj2 (proj2
    (inserted_items_spec [0; 1; 2; 3; 4]%Z 2 2 [3]%Z
       (ValueFunction (fun _ _ => (-1)%Z)) H))))).
Defined.

Lemma insert_then_remove_roundtrip_witness :
  2 <= length [0; 1; 2; 3; 4]%Z
  /\ getListWithRemovedItems
       (getListWithInsertedItems [0; 1; 2; 3; 4]%Z 2 [2; 3]%Z
          (ValueFunction (fun _ _ => (-1)%Z)))
       (seqZ 2 2)
     = [0; 1; 2; 3; 4]%Z.
Proof.
  assert (H : 2 <= length [0; 1; 2; 3; 4]%Z) by (simpl; lia).
  split; [exact H|].
  exact (insert_then_remove_roundtrip [0; 1; 2; 3; 4]%Z 2 2 [3]%Z
           (ValueFunction (fun _ _ => (-1)%Z)) H).
Defined.

Lemma insertion_index_is_ignored_witness :
  [2; 3]%Z <> []
  /\ getListWithInsertedItems [10; 11; 12]%Z 0 [2; 3]%Z (PlainValue 7%Z)
     = getListWithInsertedItems [10; 11; 12]%Z 99 [2; 3]%Z (PlainValue 7%Z).
Proof.
  assert (H : [2; 3]%Z <> []) by discriminate.
  split; [exact H|].
  exact (proj1 (insertion_index_is_ignored [10; 11; 12]%Z 0 99 [2; 3]%Z
                  (PlainValue 7%Z) H)).
Defined.

(** ** Fan-out over the maps of a collection *)

Section FanOut.
Context {V : Type}.
Implicit Types (w : World V) (this : MapCollection) (r : MapRef).

Lemma mutateMap_heap_same operation r w :
  heap (mutateMap operation r w) r
  = setValues (operation (heap w r)) (heap w r).
Proof. cbn. by rewrite Nat.eqb_refl. Qed.

Lemma mutateMap_heap_other operation r r' w :
  r' <> r -> heap (mutateMap operation r w) r' = heap w r'.
Proof. intros Hne. cbn. by apply Nat.eqb_neq in Hne as ->. Qed.






End FanOut.

Section FanOutClaim.
Context {V : Type}.
Implicit Types (w : World V) (this : MapCollection) (m : IndexMap V).




Lemma register_fresh_goes_last name (r : MapRef) this w :
  mappingsHas name (mappings this) = false ->
  mappings (register name r (this, w)).1 = mappings this ++ [(name, r)].
Proof.
  intros Hfresh. cbn. rewrite Hfresh. cbn.
  unfold mappingsHas in Hfresh.
  induction (mappings this) as [|[key old] ms IH]; cbn in *; [done|].
  destruct (String.eqb key name); [done|]. by rewrite IH.
Qed.
End FanOutClaim.

(** ** The counter of registered maps *)

Lemma mappingsHas_set (n name : string) (r : MapRef) ms :
  mappingsHas n (mappingsSet name r ms)
  = String.eqb name n || mappingsHas n ms.
Proof.
  unfold mappingsHas.
  induction ms as [|[key old] ms IH]; cbn.
  - by destruct (String.eqb name n).
  - destruct (String.eqb_spec key name) as [->|Hne]; cbn.
    + destruct (String.eqb name n); reflexivity.
    + destruct (String.eqb_spec key n) as [->|Hkn].
      * by rewrite orb_true_r.
      * exact IH.
Qed.

Lemma mappingsHas_delete (n name : string) ms :
  mappingsHas n (mappingsDelete name ms)
  = negb (String.eqb name n) && mappingsHas n ms.
Proof.
  unfold mappingsHas, mappingsDelete.
  induction ms as [|[key old] ms IH]; cbn.
  - by rewrite andb_false_r.
  - destruct (String.eqb_spec key name) as [->|Hne]; cbn.
    + rewrite IH. destruct (String.eqb name n); reflexivity.
    + destruct (String.eqb_spec key n) as [->|Hkn].
      * apply String.eqb_neq in Hne.
        rewrite String.eqb_sym in Hne. by rewrite Hne.
      * exact IH.
Qed.

Section Counter.
Context {V : Type}.
Implicit Types (w : World V) (this : MapCollection) (sys : System V).

Lemma register_counter name (r : MapRef) this w :
  registeredMaps (register name r (this, w)).2
  = if mappingsHas name (mappings this)
    then registeredMaps w
    else (registeredMaps w + 1)%Z.
Proof. cbn. by destruct (mappingsHas name (mappings this)). Qed.

Lemma register_has name (r : MapRef) this w n :
  mappingsHas n (mappings (register name r (this, w)).1)
  = String.eqb name n || mappingsHas n (mappings this).
Proof.
  cbn. destruct (mappingsHas name (mappings this)) eqn:Hhas; cbn.
  - destruct (String.eqb_spec name n) as [->|]; [by rewrite Hhas|done].
  - apply mappingsHas_set.
Qed.

Lemma unregister_counter name this w :
  registeredMaps (unregister name (this, w)).2
  = if mappingsHas name (mappings this)
    then (registeredMaps w - 1)%Z
    else registeredMaps w.
Proof.
  unfold mappingsHas. cbn.
  by destruct (mappingsGet name (mappings this)).
Qed.

Lemma unregister_has name this w n :
  mappingsHas n (mappings (unregister name (this, w)).1)
  = negb (String.eqb name n) && mappingsHas n (mappings this).
Proof.
  cbn. destruct (mappingsGet name (mappings this)) eqn:Hget; cbn.
  - apply mappingsHas_delete.
  - destruct (String.eqb_spec name n) as [->|]; [|done].
    unfold mappingsHas. by rewrite Hget.
Qed.

Lemma onCollection_length k method sys :
  length (collections (onCollection k method sys)) = length (collections sys).
Proof.
  unfold onCollection. destruct (collections sys !! k); [|done].
  destruct (method _). cbn. apply length_insert.
Qed.

Lemma isRegistered_register k name (r : MapRef) sys key :
  k < length (collections sys) ->
  isRegistered (onCollection k (register name r) sys) key
  = bool_decide (key = (k, name)) || isRegistered sys key.
Proof.
  intros Hk. destruct key as [k' n]. unfold isRegistered, onCollection.
  destruct (lookup_lt_is_Some_2 _ _ Hk) as [this Hthis]. rewrite Hthis.
  destruct (register name r (this, world sys)) as [this' w'] eqn:Hreg.
  cbn [collections fst snd].
  destruct (decide (k' = k)) as [->|Hne].
  - rewrite list_lookup_insert_eq by done. rewrite Hthis.
    replace this' with (register name r (this, world sys)).1 by by rewrite Hreg.
    rewrite register_has.
    destruct (String.eqb_spec name n) as [->|Hn].
    + by rewrite bool_decide_eq_true_2.
    + rewrite bool_decide_eq_false_2; [done|]. intros [= ?]. done.
  - rewrite list_lookup_insert_ne by done.
    rewrite bool_decide_eq_false_2; [done|]. intros [= ? ?]. done.
Qed.

Lemma isRegistered_unregister k name sys key :
  isRegistered (onCollection k (unregister name) sys) key
  = negb (bool_decide (key = (k, name))) && isRegistered sys key.
Proof.
  destruct key as [k' n]. unfold isRegistered, onCollection.
  destruct (collections sys !! k) as [this|] eqn:Hthis.
  - destruct (unregister name (this, world sys)) as [this' w'] eqn:Hun.
    cbn [collections fst snd].
    destruct (decide (k' = k)) as [->|Hne].
    + rewrite list_lookup_insert_eq by (by eapply lookup_lt_Some).
      rewrite Hthis.
      replace this' with (unregister name (this, world sys)).1
        by by rewrite Hun.
      rewrite unregister_has.
      destruct (String.eqb_spec name n) as [->|Hn].
      * by rewrite bool_decide_eq_true_2.
      * rewrite bool_decide_eq_false_2; [done|]. intros [= ?]. done.
    + rewrite list_lookup_insert_ne by done.
      rewrite bool_decide_eq_false_2; [done|]. intros [= ? ?]. done.
  - cbn [fst snd].
    destruct (decide (k' = k)) as [->|Hne].
    + by rewrite Hthis, andb_false_r.
    + rewrite bool_decide_eq_false_2; [done|]. intros [= ? ?]. done.
Qed.

Lemma counterOf_register k name (r : MapRef) sys :
  k < length (collections sys) ->
  counterOf (onCollection k (register name r) sys)
  = if isRegistered sys (k, name) then counterOf sys
    else (counterOf sys + 1)%Z.
Proof.
  intros Hk. unfold counterOf, getRegisteredMapsCounter, isRegistered,
    onCollection. cbn [fst snd].
  destruct (lookup_lt_is_Some_2 _ _ Hk) as [this Hthis]. rewrite Hthis.
  pose proof (register_counter name r this (world sys)) as Hc.
  destruct (register name r (this, world sys)) as [this' w']. exact Hc.
Qed.

Lemma counterOf_unregister k name sys :
  counterOf (onCollection k (unregister name) sys)
  = if isRegistered sys (k, name) then (counterOf sys - 1)%Z
    else counterOf sys.
Proof.
  unfold counterOf, getRegisteredMapsCounter, isRegistered, onCollection.
  cbn [fst snd].
  destruct (collections sys !! k) as [this|] eqn:Hthis; [|done].
  pose proof (unregister_counter name this (world sys)) as Hc.
  destruct (unregister name (this, world sys)) as [this' w']. exact Hc.
Qed.
End Counter.

Section CounterClaim.
Context {V : Type}.
Implicit Types (w : World V) (this : MapCollection) (sys : System V).
Implicit Types (regs : list (nat * string * MapRef)).
Implicit Types (names : list (nat * string)).

Lemma registerAll_spec regs sys :
  NoDup (keyOf <$> regs) ->
  (forall reg, reg ∈ regs -> reg.1.1 < length (collections sys)) ->
  (forall reg, reg ∈ regs -> isRegistered sys (keyOf reg) = false) ->
  counterOf (registerAll regs sys) = (counterOf sys + Z.of_nat (length regs))%Z
  /\ forall key, isRegistered (registerAll regs sys) key
                 = bool_decide (key ∈ keyOf <$> regs) || isRegistered sys key.
Proof.
  revert sys. induction regs as [|reg regs IH]; intros sys Hnd Hvalid Hfresh.
  - cbn. split; [lia|]. intros key.
    rewrite bool_decide_eq_false_2; [done|]. apply not_elem_of_nil.
  - rewrite fmap_cons in Hnd. apply NoDup_cons in Hnd as [Hnotin Hnd].
    assert (Hk : reg.1.1 < length (collections sys))
      by (apply Hvalid; left).
    set (sys1 := onCollection reg.1.1 (register reg.1.2 reg.2) sys).
    assert (Hreg1 : forall key, isRegistered sys1 key
                    = bool_decide (key = keyOf reg) || isRegistered sys key)
      by (intros key; by apply isRegistered_register).
    destruct (IH sys1) as [Hcount Hregd].
    + exact Hnd.
    + intros reg' Hin. subst sys1. rewrite onCollection_length.
      apply Hvalid. by right.
    + intros reg' Hin. rewrite Hreg1.
      rewrite (Hfresh reg') by (by right).
      rewrite bool_decide_eq_false_2; [done|].
      intros Heq. apply Hnotin. rewrite <- Heq.
      by apply list_elem_of_fmap_2.
    + change (registerAll (reg :: regs) sys) with (registerAll regs sys1).
      split.
      * rewrite Hcount. subst sys1.
        rewrite counterOf_register by done.
        change (reg.1.1, reg.1.2) with (keyOf reg).
        rewrite (Hfresh reg) by left. cbn [length]. lia.
      * intros key. rewrite Hregd, Hreg1, fmap_cons.
        destruct (decide (key = keyOf reg)) as [->|Hne].
        -- rewrite (bool_decide_eq_true_2 (keyOf reg = keyOf reg)) by done.
           rewrite (bool_decide_eq_true_2 (keyOf reg ∈ _ :: _)) by left.
           by rewrite orb_true_r.
        -- rewrite (bool_decide_eq_false_2 (key = keyOf reg)) by done.
           cbn [orb]. f_equal. apply bool_decide_ext.
           rewrite elem_of_cons. tauto.
Qed.

Lemma unregisterAll_spec names sys :
  NoDup names ->
  (forall key, key ∈ names -> isRegistered sys key = true) ->
  counterOf (unregisterAll names sys)
  = (counterOf sys - Z.of_nat (length names))%Z
  /\ forall key, isRegistered (unregisterAll names sys) key
                 = negb (bool_decide (key ∈ names)) && isRegistered sys key.
Proof.
  revert sys. induction names as [|[k name] names IH]; intros sys Hnd Hregd.
  - cbn. split; [lia|]. intros key.
    rewrite bool_decide_eq_false_2; [done|]. apply not_elem_of_nil.
  - apply NoDup_cons in Hnd as [Hnotin Hnd].
    set (sys1 := onCollection k (unregister name) sys).
    assert (Hreg1 : forall key, isRegistered sys1 key
                    = negb (bool_decide (key = (k, name)))
                      && isRegistered sys key)
      by (intros key; apply isRegistered_unregister).
    destruct (IH sys1) as [Hcount Hafter].
    + exact Hnd.
    + intros key Hin. rewrite Hreg1, (Hregd key) by (by right).
      rewrite bool_decide_eq_false_2; [done|]. by intros ->.
    + change (unregisterAll ((k, name) :: names) sys)
        with (unregisterAll names sys1).
      split.
      * rewrite Hcount. subst sys1. rewrite counterOf_unregister.
        rewrite (Hregd (k, name)) by left. cbn [length]. lia.
      * intros key. rewrite Hafter, Hreg1.
        destruct (decide (key = (k, name))) as [->|Hne].
        -- rewrite (bool_decide_eq_true_2 ((k, name) = (k, name))) by done.
           rewrite (bool_decide_eq_true_2 ((k, name) ∈ _ :: _)) by left.
           cbn. by rewrite andb_false_r.
        -- rewrite (bool_decide_eq_false_2 (key = (k, name))) by done.
           cbn [negb andb]. f_equal. f_equal. apply bool_decide_ext.
           rewrite elem_of_cons. tauto.
Qed.

(** C8.  Whatever the counter is at the start: registering the maps of
    [regs], each in an existing collection under a name not yet
    registered there, raises the counter by their number, and then
    unregistering all these names, in any order, brings the counter back
    to its starting value.  [register] adds one exactly when the name is
    not yet registered in the collection, and it then stores the map;
    otherwise it changes nothing.  [unregister] subtracts one exactly when
    the name is registered, and it then removes the name; otherwise it
    changes nothing. *)
Theorem counter_restored_after_unregistering sys regs names :
  NoDup (keyOf <$> regs) ->
  (forall reg, reg ∈ regs -> reg.1.1 < length (collections sys)) ->
  (forall reg, reg ∈ regs -> isRegistered sys (keyOf reg) = false) ->
  names ≡ₚ keyOf <$> regs ->
  counterOf (registerAll regs sys) = (counterOf sys + Z.of_nat (length regs))%Z
  /\ counterOf (unregisterAll names (registerAll regs sys)) = counterOf sys
  /\ (forall name (r : MapRef) this w,
        if mappingsHas name (mappings this)
        then register name r (this, w) = (this, w)
        else getRegisteredMapsCounter (register name r (this, w)).2
             = (getRegisteredMapsCounter w + 1)%Z
             /\ get name (register name r (this, w)).1 = Some r)
  /\ (forall name this w,
        if mappingsHas name (mappings this)
        then getRegisteredMapsCounter (unregister name (this, w)).2
             = (getRegisteredMapsCounter w - 1)%Z
             /\ get name (unregister name (this, w)).1 = None
        else unregister name (this, w) = (this, w)).
Proof.
  intros Hnd Hvalid Hfresh Hperm.
  destruct (registerAll_spec regs sys Hnd Hvalid Hfresh) as [Hcount Hregd].
  split; [exact Hcount|]. split; [|split].
  - destruct (unregisterAll_spec names (registerAll regs sys)) as [Hc _].
    + by rewrite Hperm.
    + intros key Hin. rewrite Hregd. rewrite Hperm in Hin.
      by rewrite bool_decide_eq_true_2.
    + rewrite Hc, Hcount, Hperm, length_fmap. lia.
  - intros name r this w.
    destruct (mappingsHas name (mappings this)) eqn:Hhas.
    + cbn. by rewrite Hhas.
    + pose proof (register_counter name r this w) as Hc.
      rewrite Hhas in Hc. split; [exact Hc|].
      pose proof (register_fresh_goes_last name r this w Hhas) as Hm.
      unfold get. rewrite Hm. clear Hm. unfold mappingsHas in Hhas.
      induction (mappings this) as [|[key old] ms IH]; cbn in *.
      * by rewrite String.eqb_refl.
      * destruct (String.eqb key name); [done|]. by apply IH.
  - intros name this w.
    destruct (mappingsHas name (mappings this)) eqn:Hhas.
    + pose proof (unregister_counter name this w) as Hc.
      rewrite Hhas in Hc. split; [exact Hc|].
      pose proof (unregister_has name this w name) as Hh.
      rewrite String.eqb_refl in Hh. cbn in Hh.
      unfold get. unfold mappingsHas in Hh.
      by destruct (mappingsGet name _).
    + unfold mappingsHas in Hhas. cbn.
      by destruct (mappingsGet name (mappings this)).
Qed.
End CounterClaim.


Example sample_insertToEvery :
  let w' := insertToEvery 2 [2; 3]%Z sampleCollection sampleWorld in
  indexedValues (heap w' 0) = [0; 1; -1; -1; 2; 3; 4]%Z
  /\ indexedValues (heap w' 1) = [0; 1; -1; -1; 2; 3; 4]%Z
  /\ indexedValues (heap w' 2) = [0; 1; 2; 3; 4]%Z
  /\ notifications w' = [CollectionChange 0 0; CollectionChange 0 1].
Proof. repeat split. Qed.

Lemma counter_restored_after_unregistering_witness :
  NoDup (keyOf <$> sampleRegistrations)
  /\ sampleUnregistrations ≡ₚ keyOf <$> sampleRegistrations
  /\ counterOf (registerAll sampleRegistrations sampleSystem)
     = (counterOf sampleSystem + 3)%Z
  /\ counterOf (unregisterAll sampleUnregistrations
                  (registerAll sampleRegistrations sampleSystem))
     = counterOf sampleSystem.
Proof.
  assert (Hnd : NoDup (keyOf <$> sampleRegistrations))
    by (apply (bool_decide_unpack _); vm_compute; exact I).
  assert (Hperm : sampleUnregistrations ≡ₚ keyOf <$> sampleRegistrations).
  { cbn. apply (Permutation_cons_append [(0, "rows"%string); (1, "rows"%string)]). }
  assert (Hvalid : forall reg, reg ∈ sampleRegistrations ->
                     reg.1.1 < length (collections sampleSystem)).
  { intros reg Hin. unfold sampleRegistrations in Hin.
    repeat (apply elem_of_cons in Hin as [->|Hin]); simpl; try lia.
    by apply elem_of_nil in Hin. }
  assert (Hfresh : forall reg, reg ∈ sampleRegistrations ->
                     isRegistered sampleSystem (keyOf reg) = false).
  { intros reg Hin. unfold sampleRegistrations in Hin.
    repeat (apply elem_of_cons in Hin as [->|Hin]); try reflexivity.
    by apply elem_of_nil in Hin. }
  split; [exact Hnd|]. split; [exact Hperm|].
  pose proof (counter_restored_after_unregistering sampleSystem
                sampleRegistrations sampleUnregistrations
                Hnd Hvalid Hfresh Hperm) as (Hup & Hdown & _).
  split; [exact Hup|exact Hdown].
Defined.

(** ** Selection geometry *)

Lemma fold_right_min_absorb (a x : Z) (l : list Z) :
  fold_right Z.min (Z.min a x) l = Z.min x (fold_right Z.min a l).
Proof. induction l as [|y l IH]; cbn; [lia|]. rewrite IH. lia. Qed.

Lemma fold_right_max_absorb (a x : Z) (l : list Z) :
  fold_right Z.max (Z.max a x) l = Z.max x (fold_right Z.max a l).
Proof. induction l as [|y l IH]; cbn; [lia|]. rewrite IH. lia. Qed.

Lemma fold_left_min (l : list Z) (a : Z) :
  fold_left Z.min l a = minimumOf a l.
Proof.
  unfold minimumOf. revert a. induction l as [|x l IH]; intros a; cbn.
  - reflexivity.
  - rewrite IH. apply fold_right_min_absorb.
Qed.

Lemma fold_left_max (l : list Z) (a : Z) :
  fold_left Z.max l a = maximumOf a l.
Proof.
  unfold maximumOf. revert a. induction l as [|x l IH]; intros a; cbn.
  - reflexivity.
  - rewrite IH. apply fold_right_max_absorb.
Qed.

Lemma minimumOf_least (a : Z) (l : list Z) :
  minimumOf a l ∈ a :: l /\ forall x, x ∈ a :: l -> (minimumOf a l <= x)%Z.
Proof.
  unfold minimumOf. induction l as [|y l [IHin IHle]]; cbn.
  - split; [left|]. intros x Hx. apply list_elem_of_singleton in Hx. lia.
  - split.
    + destruct (Z.min_spec y (fold_right Z.min a l)) as [[_ ->]|[_ ->]].
      * right. left.
      * apply elem_of_cons in IHin as [->|Hin]; [left|]. right. by right.
    + intros x Hx.
      assert (x = y \/ x ∈ a :: l) as [->|Hx'].
      { apply elem_of_cons in Hx as [->|Hx]; [right; left|].
        apply elem_of_cons in Hx as [->|Hx]; [by left|]. right. by right. }
      * lia.
      * specialize (IHle x Hx'). lia.
Qed.

Lemma maximumOf_greatest (a : Z) (l : list Z) :
  maximumOf a l ∈ a :: l /\ forall x, x ∈ a :: l -> (x <= maximumOf a l)%Z.
Proof.
  unfold maximumOf. induction l as [|y l [IHin IHle]]; cbn.
  - split; [left|]. intros x Hx. apply list_elem_of_singleton in Hx. lia.
  - split.
    + destruct (Z.max_spec y (fold_right Z.max a l)) as [[_ ->]|[_ ->]].
      * apply elem_of_cons in IHin as [->|Hin]; [left|]. right. by right.
      * right. left.
    + intros x Hx.
      assert (x = y \/ x ∈ a :: l) as [->|Hx'].
      { apply elem_of_cons in Hx as [->|Hx]; [right; left|].
        apply elem_of_cons in Hx as [->|Hx]; [by left|]. right. by right. }
      * lia.
      * specialize (IHle x Hx'). lia.
Qed.

Lemma minimumOf_perm (a b : Z) (l l' : list Z) :
  a :: l ≡ₚ b :: l' -> minimumOf a l = minimumOf b l'.
Proof.
  intros Hp.
  destruct (minimumOf_least a l) as [Hin Hle].
  destruct (minimumOf_least b l') as [Hin' Hle'].
  apply Z.le_antisymm.
  - apply Hle. by rewrite Hp.
  - apply Hle'. by rewrite <- Hp.
Qed.

Lemma maximumOf_perm (a b : Z) (l l' : list Z) :
  a :: l ≡ₚ b :: l' -> maximumOf a l = maximumOf b l'.
Proof.
  intros Hp.
  destruct (maximumOf_greatest a l) as [Hin Hle].
  destruct (maximumOf_greatest b l') as [Hin' Hle'].
  apply Z.le_antisymm.
  - apply Hle'. by rewrite <- Hp.
  - apply Hle. by rewrite Hp.
Qed.

Lemma addAll_nonempty (cs : list CellCoords) (range : CellRange)
    (this : Selection) :
  cellRange this = Some range ->
  getCorners (addAll cs this)
  = Normal (fold_left Z.min (row <$> cs) (row (getTopLeftCorner range)),
            fold_left Z.min (col <$> cs) (col (getTopLeftCorner range)),
            fold_left Z.max (row <$> cs) (row (getBottomRightCorner range)),
            fold_left Z.max (col <$> cs) (col (getBottomRightCorner range))).
Proof.
  revert range this. induction cs as [|c cs IH]; intros range this Hrange.
  - unfold getCorners. cbn. by rewrite Hrange.
  - cbn [addAll fold_left]. fold (addAll cs (add c this)).
    rewrite (IH (expand c range)).
    + rewrite !fmap_cons. cbn [fold_left].
      repeat f_equal; cbn; lia.
    + unfold add. by rewrite Hrange.
Qed.

Lemma addAll_from_empty (c0 : CellCoords) (rest : list CellCoords)
    (this : Selection) :
  isEmpty this = true ->
  getCorners (addAll (c0 :: rest) this)
  = Normal (minimumOf (row c0) (row <$> rest),
            minimumOf (col c0) (col <$> rest),
            maximumOf (row c0) (row <$> rest),
            maximumOf (col c0) (col <$> rest)).
Proof.
  intros Hempty. unfold isEmpty in Hempty.
  destruct (cellRange this) eqn:Hrange; [done|].
  cbn [addAll fold_left]. fold (addAll rest (add c0 this)).
  rewrite (addAll_nonempty rest (newCellRange c0)).
  - rewrite !fold_left_min, !fold_left_max. cbn.
    by rewrite !Z.min_id, !Z.max_id.
  - unfold add. by rewrite Hrange.
Qed.

(** C4.  Coordinates [c0 :: rest] added one at a time to an empty
    selection give the corners [[minimum row, minimum column, maximum
    row, maximum column]] of the added coordinates; adding the same
    coordinates in any other order gives the same corners; and the
    corners of a range do not depend on which of [from] and [to] holds
    the larger coordinate. *)
Theorem corners_are_bounding_box (c0 : CellCoords) (rest : list CellCoords)
    (this : Selection) :
  isEmpty this = true ->
  getCorners (addAll (c0 :: rest) this)
  = Normal (minimumOf (row c0) (row <$> rest),
            minimumOf (col c0) (col <$> rest),
            maximumOf (row c0) (row <$> rest),
            maximumOf (col c0) (col <$> rest))
  /\ (forall reordered,
        reordered ≡ₚ c0 :: rest ->
        getCorners (addAll reordered this)
        = getCorners (addAll (c0 :: rest) this))
  /\ (forall a b,
        getCorners (withCellRange (Some (mkCellRange a b)) this)
        = Normal (Z.min (row a) (row b), Z.min (col a) (col b),
                  Z.max (row a) (row b), Z.max (col a) (col b))
        /\ getCorners (withCellRange (Some (mkCellRange b a)) this)
           = getCorners (withCellRange (Some (mkCellRange a b)) this)).
Proof.
  intros Hempty. split; [by apply addAll_from_empty|]. split.
  - intros reordered Hperm.
    destruct reordered as [|d0 others].
    { by apply Permutation_nil_cons in Hperm. }
    rewrite !addAll_from_empty by done.
    assert (Hrows : row d0 :: (row <$> others) ≡ₚ row c0 :: (row <$> rest))
      by (rewrite <- !fmap_cons; by rewrite Hperm).
    assert (Hcols : col d0 :: (col <$> others) ≡ₚ col c0 :: (col <$> rest))
      by (rewrite <- !fmap_cons; by rewrite Hperm).
    by rewrite (minimumOf_perm _ _ _ _ Hrows), (minimumOf_perm _ _ _ _ Hcols),
      (maximumOf_perm _ _ _ _ Hrows), (maximumOf_perm _ _ _ _ Hcols).
  - intros a b. split; [reflexivity|].
    unfold getCorners, getTopLeftCorner, getBottomRightCorner.
    cbn [cellRange withCellRange from to row col].
    by rewrite (Z.min_comm (row b)), (Z.min_comm (col b)),
      (Z.max_comm (row b)), (Z.max_comm (col b)).
Qed.

Lemma corners_are_bounding_box_witness :
  isEmpty emptySelection = true
  /\ getCorners (addAll [mkCellCoords 2 2; mkCellCoords 5 1] emptySelection)
     = Normal (2, 1, 5, 2)%Z.
Proof.
  split; [reflexivity|].
  exact (proj1 (corners_are_bounding_box (mkCellCoords 2 2) [mkCellCoords 5 1]
                  emptySelection eq_refl)).
Defined.

Lemma isEqual_true_iff (a b : CellCoords) : isEqual a b = true <-> a = b.
Proof.
  unfold isEqual. rewrite andb_true_iff, !Z.eqb_eq.
  destruct a, b; cbn. split; [intros [-> ->]; reflexivity|].
  intros [= -> ->]. done.
Qed.

Lemma isEqual_false_iff (a b : CellCoords) : isEqual a b = false <-> a <> b.
Proof. rewrite <- isEqual_true_iff. by destruct (isEqual a b). Qed.

(** C7.  On a selection whose range is not null, [replace] puts the new
    coordinates in [from] and returns true when the old coordinates have
    the row and column of [from]; otherwise it puts them in [to] and
    returns true when the old coordinates have the row and column of [to];
    otherwise it returns false and the selection is unchanged.  On the
    range from (1,1) to (3,3), replacing (1,1) by (9,9) gives the range
    from (9,9) to (3,3) and true, and replacing (1,1) once more gives
    false. *)
Theorem replace_spec (this : Selection) (range : CellRange)
    (oldCoords newCoords : CellCoords) :
  cellRange this = Some range ->
  (from range = oldCoords ->
     replace oldCoords newCoords this
     = (withCellRange (Some (mkCellRange newCoords (to range))) this, true))
  /\ (from range <> oldCoords -> to range = oldCoords ->
        replace oldCoords newCoords this
        = (withCellRange (Some (mkCellRange (from range) newCoords)) this, true))
  /\ (from range <> oldCoords -> to range <> oldCoords ->
        replace oldCoords newCoords this = (this, false))
  /\ (let before :=
        withCellRange
          (Some (mkCellRange (mkCellCoords 1 1) (mkCellCoords 3 3))) this in
      let once := replace (mkCellCoords 1 1) (mkCellCoords 9 9) before in
      once = (withCellRange
                (Some (mkCellRange (mkCellCoords 9 9) (mkCellCoords 3 3))) this,
              true)
      /\ replace (mkCellCoords 1 1) (mkCellCoords 9 9) once.1 = (once.1, false)).
Proof.
  intros Hrange. unfold replace. rewrite Hrange.
  split; [|split; [|split]].
  - intros Hfrom. apply isEqual_true_iff in Hfrom. by rewrite Hfrom.
  - intros Hfrom Hto. apply isEqual_false_iff in Hfrom.
    apply isEqual_true_iff in Hto. by rewrite Hfrom, Hto.
  - intros Hfrom Hto. apply isEqual_false_iff in Hfrom.
    apply isEqual_false_iff in Hto. by rewrite Hfrom, Hto.
  - split; reflexivity.
Qed.

Lemma replace_spec_witness :
  cellRange smallSelection
  = Some (mkCellRange (mkCellCoords 1 1) (mkCellCoords 3 3))
  /\ replace (mkCellCoords 1 1) (mkCellCoords 9 9) smallSelection
     = (withCellRange
          (Some (mkCellRange (mkCellCoords 9 9) (mkCellCoords 3 3)))
          smallSelection,
        true).
Proof.
  split; [reflexivity|].
  exact (proj1 (replace_spec smallSelection
                  (mkCellRange (mkCellCoords 1 1) (mkCellCoords 3 3))
                  (mkCellCoords 1 1) (mkCellCoords 9 9) eq_refl) eq_refl).
Defined.

(** ** Render planning *)

Section DrawRules.
Context {A B : Type}.
Implicit Types (allowed : Effect -> Prop) (s : DrawState).

Lemma bind_Normal (m : Draw A) (f : A -> Draw B) s result s2 log :
  (m ≫= f) s = Normal (result, s2, log) ->
  exists value s1 log1 log2,
    m s = Normal (value, s1, log1)
    /\ f value s1 = Normal (result, s2, log2)
    /\ log = log1 ++ log2.
Proof.
  unfold mbind, Draw_bind.
  destruct (m s) as [[[value s1] log1]|]; [|done].
  destruct (f value s1) as [[[result' s2'] log2]|] eqn:Ef; [|done].
  intros [= -> -> <-]. by exists value, s1, log1, log2.
Qed.

Lemma bind_eq (m : Draw A) (f : A -> Draw B) s value s1 log1 :
  m s = Normal (value, s1, log1) ->
  (m ≫= f) s
  = match f value s1 with
    | Normal (result, s2, log2) => Normal (result, s2, log1 ++ log2)
    | Thrown error => Thrown error
    end.
Proof. intros Hm. unfold mbind, Draw_bind. by rewrite Hm. Qed.

Lemma quiet_ret allowed (value : A) : quiet allowed (mret value).
Proof. intros s. exists value, s, []. by repeat split. Qed.

Lemma quiet_bind allowed (m : Draw A) (f : A -> Draw B) :
  quiet allowed m -> (forall value, quiet allowed (f value)) ->
  quiet allowed (m ≫= f).
Proof.
  intros Hm Hf s.
  destruct (Hm s) as (value & s1 & log1 & Em & Hd1 & Hl1).
  destruct (Hf value s1) as (result & s2 & log2 & Ef & Hd2 & Hl2).
  exists result, s2, (log1 ++ log2). split; [|split].
  - rewrite (bind_eq _ _ _ _ _ _ Em). by rewrite Ef.
  - by rewrite Hd2.
  - by apply Forall_app.
Qed.

Lemma quiet_weaken allowed allowed' (m : Draw A) :
  (forall effect, allowed effect -> allowed' effect) ->
  quiet allowed m -> quiet allowed' m.
Proof.
  intros Himp Hm s.
  destruct (Hm s) as (value & s1 & log1 & Em & Hd1 & Hl1).
  exists value, s1, log1. repeat split; [done..|].
  eapply Forall_impl; [exact Hl1|exact Himp].
Qed.

Lemma quiet_ext allowed (m m' : Draw A) :
  (forall s, m s = m' s) -> quiet allowed m' -> quiet allowed m.
Proof. intros Heq Hm s. rewrite Heq. apply Hm. Qed.

Lemma quiet_result allowed (m : Draw A) s value s' log :
  quiet allowed m -> m s = Normal (value, s', log) ->
  borderEdgesDescriptor (selection s') = borderEdgesDescriptor (selection s)
  /\ Forall allowed log.
Proof.
  intros Hm Em. destruct (Hm s) as (value' & s1 & log1 & Em' & Hd & Hl).
  rewrite Em in Em'. by injection Em' as -> -> ->.
Qed.
End DrawRules.

Section DrawLoops.
Context {A : Type}.
Implicit Types (allowed : Effect -> Prop) (body : A -> Draw unit).

Lemma quiet_forEach allowed (items : list A) body :
  (forall item, quiet allowed (body item)) ->
  quiet allowed (forEach items body).
Proof.
  intros Hbody. induction items as [|item items IH]; cbn [forEach].
  - apply quiet_ret.
  - apply quiet_bind; [apply Hbody|]. intros _. exact IH.
Qed.

Lemma forEach_skip (items : list A) body s :
  (forall item s', body item s' = Normal (tt, s', [])) ->
  forEach items body s = Normal (tt, s, []).
Proof.
  intros Hbody. induction items as [|item items IH]; cbn [forEach]; [done|].
  rewrite (bind_eq _ _ _ _ _ _ (Hbody item s)). by rewrite IH.
Qed.
End DrawLoops.

Lemma forRange_empty (first last : Z) (body : Z -> Draw unit) s :
  (last < first)%Z -> forRange first last body s = Normal (tt, s, []).
Proof.
  intros Hlt. unfold forRange, seqZ.
  replace (Z.to_nat (last - first + 1)) with 0 by lia. reflexivity.
Qed.

Lemma quiet_forRange allowed (first last : Z) (body : Z -> Draw unit) :
  (forall i, quiet allowed (body i)) ->
  quiet allowed (forRange first last body).
Proof. intros Hbody. by apply quiet_forEach. Qed.

Section DrawSteps.
Implicit Types (allowed : Effect -> Prop) (wot : WalkontableInstance).

Lemma quiet_getThis allowed : quiet allowed getThis.
Proof. intros s. exists (selection s), s, []. by repeat split. Qed.

Lemma quiet_getClassesOf allowed element :
  quiet allowed (getClassesOf element).
Proof. intros s. exists (classesOf s element), s, []. by repeat split. Qed.

Lemma quiet_updateThis allowed (f : Selection -> Selection) :
  (forall this, borderEdgesDescriptor (f this) = borderEdgesDescriptor this) ->
  quiet allowed (updateThis f).
Proof.
  intros Hf s.
  exists tt, (mkDrawState (f (selection s)) (classesOf s)), [].
  split; [reflexivity|]. split; [apply Hf|done].
Qed.

Lemma quiet_emitEffect allowed effect :
  allowed effect -> quiet allowed (emitEffect effect).
Proof.
  intros He s. exists tt, s, [effect].
  split; [reflexivity|]. split; [reflexivity|]. by apply Forall_singleton.
Qed.

Lemma quiet_addClass (kind : Site -> bool) site element names :
  kind site = true -> quiet (addsClassAt kind) (addClass site element names).
Proof.
  intros Hk s. unfold addClass. eexists tt, _, _.
  split; [reflexivity|]. split; [done|]. by apply Forall_singleton.
Qed.

Lemma quiet_addClassAtCoords (kind : Site -> bool) site wot r c name mark :
  kind site = true ->
  quiet (addsClassAt kind) (addClassAtCoords site wot r c name mark).
Proof.
  intros Hk. unfold addClassAtCoords.
  destruct (getCell _ _); try apply quiet_ret.
  destruct mark; [|by apply quiet_addClass].
  apply quiet_bind; [apply quiet_getThis|]. intros this.
  apply quiet_bind; [apply quiet_getClassesOf|]. intros classes.
  apply quiet_bind; [|intros _; by apply quiet_addClass].
  case_bool_decide; [apply quiet_ret|]. by apply quiet_updateThis.
Qed.

Lemma quiet_addClassIfElemExists (kind : Site -> bool) site elem names :
  kind site = true ->
  quiet (addsClassAt kind) (addClassIfElemExists site elem names).
Proof.
  intros Hk. destruct elem; [by apply quiet_addClass|apply quiet_ret].
Qed.

Lemma quiet_getSelectionHandle wot : quiet addsNoClass (getSelectionHandle wot).
Proof.
  unfold getSelectionHandle.
  apply quiet_bind; [apply quiet_getThis|]. intros this.
  destruct (getSelectionHandleIfExists wot this); [apply quiet_ret|].
  apply quiet_bind; [by apply quiet_emitEffect|]. intros _.
  by apply quiet_updateThis.
Qed.

Lemma quiet_highlightColumns wot this corners :
  quiet (addsClassAt isColumnSite) (highlightColumns wot this corners).
Proof.
  unfold highlightColumns.
  destruct (_ && _); [|apply quiet_ret].
  apply quiet_forRange. intros sourceColumn.
  apply quiet_bind; [by apply quiet_addClassIfElemExists|]. intros _.
  destruct (truthyString _); [|apply quiet_ret].
  apply quiet_forRange. intros renderedRow.
  destruct (_ || _); [by apply quiet_addClassAtCoords|apply quiet_ret].
Qed.

Lemma quiet_highlightRows wot this corners :
  quiet (addsClassAt isRowSite) (highlightRows wot this corners).
Proof.
  unfold highlightRows.
  destruct (_ && _); [|apply quiet_ret].
  apply quiet_forRange. intros sourceRow.
  apply quiet_bind; [by apply quiet_addClassIfElemExists|]. intros _.
  destruct (truthyString _); [|apply quiet_ret].
  apply quiet_forRange. intros renderedColumn.
  destruct (_ || _); [by apply quiet_addClassAtCoords|apply quiet_ret].
Qed.

Lemma quiet_selectCells wot this corners :
  quiet (addsClassAt isBodySite) (selectCells wot this corners).
Proof.
  unfold selectCells.
  apply quiet_forRange. intros sourceRow.
  apply quiet_forRange. intros sourceColumn.
  apply quiet_bind.
  - destruct (_ && _); [by apply quiet_addClassAtCoords|apply quiet_ret].
  - intros _. destruct (truthyString _); [|apply quiet_ret].
    destruct (onAfterDrawSelection _ _ _ _ _);
      [by apply quiet_addClassAtCoords|apply quiet_ret].
Qed.
End DrawSteps.

Section DrawBlocks.
Implicit Types (wot : WalkontableInstance) (this : Selection).
Implicit Types (corners : Corners) (s : DrawState).

Lemma draw_nonempty wot s corners :
  getCorners (selection s) = Normal corners ->
  draw wot s
  = drawSelection wot (withBorderEdgesDescriptor [] (selection s)) corners
      (mkDrawState (withBorderEdgesDescriptor [] (selection s)) (classesOf s)).
Proof.
  intros Hc. unfold getCorners in Hc.
  destruct (cellRange (selection s)) as [range|] eqn:Hrange; [|done].
  unfold draw, mbind, Draw_bind, updateThis, getThis, isEmpty, getCorners.
  cbn. rewrite Hrange. cbn. injection Hc as <-.
  by destruct (drawSelection _ _ _ _) as [[[[] s2] log2]|].
Qed.

Lemma draw_empty wot s :
  cellRange (selection s) = None ->
  exists s' log,
    draw wot s = Normal (tt, s', log)
    /\ borderEdgesDescriptor (selection s') = [].
Proof.
  intros Hrange.
  unfold draw, mbind, Draw_bind, updateThis, getThis, isEmpty. cbn.
  rewrite Hrange.
  destruct (hasSelectionHandle _); [|by eexists _, _].
  destruct (getSelectionHandleIfExists _ _); by eexists _, _.
Qed.

Lemma highlightColumns_empty wot this corners s :
  (highlightLastRenderedColumn (wtTable wot) corners
   < highlightFirstRenderedColumn (wtTable wot) corners)%Z ->
  highlightColumns wot this corners s = Normal (tt, s, []).
Proof.
  intros Hlt. unfold highlightColumns.
  destruct (_ && _); [|reflexivity]. by apply forRange_empty.
Qed.

Lemma highlightRows_empty wot this corners s :
  (highlightLastRenderedRow (wtTable wot) corners
   < highlightFirstRenderedRow (wtTable wot) corners)%Z ->
  highlightRows wot this corners s = Normal (tt, s, []).
Proof.
  intros Hlt. unfold highlightRows.
  destruct (_ && _); [|reflexivity]. by apply forRange_empty.
Qed.

Lemma describeBorderEdges_inverted wot this corners s :
  (highlightLastRenderedRow (wtTable wot) corners
   < highlightFirstRenderedRow (wtTable wot) corners
   \/ highlightLastRenderedColumn (wtTable wot) corners
      < highlightFirstRenderedColumn (wtTable wot) corners)%Z ->
  describeBorderEdges wot this corners s = Normal (tt, s, []).
Proof.
  intros Hinv. unfold describeBorderEdges.
  destruct (Z.leb_spec (highlightFirstRenderedRow (wtTable wot) corners)
              (highlightLastRenderedRow (wtTable wot) corners));
    destruct (Z.leb_spec (highlightFirstRenderedColumn (wtTable wot) corners)
                (highlightLastRenderedColumn (wtTable wot) corners));
    try lia; by rewrite ?andb_false_r.
Qed.

Lemma selectCells_inverted wot this corners s :
  (highlightLastRenderedRow (wtTable wot) corners
   < highlightFirstRenderedRow (wtTable wot) corners
   \/ highlightLastRenderedColumn (wtTable wot) corners
      < highlightFirstRenderedColumn (wtTable wot) corners)%Z ->
  selectCells wot this corners s = Normal (tt, s, []).
Proof.
  intros [Hrows|Hcolumns]; unfold selectCells.
  - by apply forRange_empty.
  - unfold forRange at 1. apply forEach_skip.
    intros sourceRow s'. by apply forRange_empty.
Qed.

Lemma callNeighbourTable_state neighbour s (u : unit) s' log :
  callNeighbourTable neighbour s = Normal (u, s', log) -> s' = s /\ log = [].
Proof. destruct neighbour; [|done]. by intros [= _ -> <-]. Qed.

Lemma getRelevantCell_state wot r c firstRow lastRow lastColumn s td s' log :
  getRelevantCell wot r c firstRow lastRow lastColumn s = Normal (td, s', log) ->
  s' = s.
Proof.
  unfold getRelevantCell.
  destruct (getCell _ _); try by intros [= _ -> _].
  intros H. apply bind_Normal in H as (u & s1 & log1 & log2 & Hcall & Hret & _).
  injection Hret as _ <- _.
  repeat match type of Hcall with
         | (if ?b then _ else _) _ = _ => destruct b
         end;
    try (by apply callNeighbourTable_state in Hcall as [-> _]).
  by injection Hcall as _ ->.
Qed.

Lemma describeBorderEdges_result wot this corners s (u : unit) s' log :
  describeBorderEdges wot this corners s = Normal (u, s', log) ->
  borderEdgesDescriptor (selection s') = borderEdgesDescriptor (selection s)
  \/ exists firstTd lastTd,
       borderEdgesDescriptor (selection s')
       = edgesDescriptor (settings this) (wtTable wot) corners firstTd lastTd.
Proof.
  unfold describeBorderEdges.
  destruct (_ && _); [|intros [= _ <- _]; by left].
  intros H.
  apply bind_Normal in H as (firstTd & s1 & log1 & log2 & Hfirst & H & _).
  apply getRelevantCell_state in Hfirst as ->.
  apply bind_Normal in H as (lastTd & s2 & log3 & log4 & Hlast & H & _).
  assert (s2 = s) as ->.
  { destruct (_ && _) in Hlast.
    - by injection Hlast as _ ->.
    - by apply getRelevantCell_state in Hlast. }
  destruct firstTd as [first|], lastTd as [last|];
    try (injection H as _ <- _; by left).
  injection H as _ <- _. right. by exists first, last.
Qed.

Lemma drawSelection_descriptor wot this corners s (u : unit) s' log :
  drawSelection wot this corners s = Normal (u, s', log) ->
  borderEdgesDescriptor (selection s') = borderEdgesDescriptor (selection s)
  \/ exists firstTd lastTd,
       borderEdgesDescriptor (selection s')
       = edgesDescriptor (settings this) (wtTable wot) corners firstTd lastTd.
Proof.
  unfold drawSelection. intros H.
  apply bind_Normal in H as (u1 & s1 & l1 & l1' & Hcolumns & H & _).
  apply (quiet_result _ _ _ _ _ _ (quiet_highlightColumns wot this corners))
    in Hcolumns as [Hd1 _].
  apply bind_Normal in H as (u2 & s2 & l2 & l2' & Hrows & H & _).
  apply (quiet_result _ _ _ _ _ _ (quiet_highlightRows wot this corners))
    in Hrows as [Hd2 _].
  apply bind_Normal in H as (u3 & s3 & l3 & l3' & Hbody & H & _).
  apply bind_Normal in H as (u4 & s4 & l4 & l4' & Hhook & H & _).
  injection Hhook as _ <- _.
  assert (Hd4 : borderEdgesDescriptor (selection s')
                = borderEdgesDescriptor (selection s3)).
  { destruct (hasSelectionHandle this).
    - apply bind_Normal in H as (u5 & s5 & l5 & l5' & Hhandle & H & _).
      injection H as _ <- _.
      by apply (quiet_result _ _ _ _ _ _ (quiet_getSelectionHandle wot))
        in Hhandle as [Hd5 _].
    - by injection H as _ <- _. }
  rewrite Hd4. rewrite <- Hd1, <- Hd2.
  destruct (_ && _) in Hbody; [|injection Hbody as _ <- _; by left].
  apply bind_Normal in Hbody as (u6 & s6 & l6 & l6' & Hedges & Hcells & _).
  apply (quiet_result _ _ _ _ _ _ (quiet_selectCells wot this corners))
    in Hcells as [Hd6 _].
  rewrite Hd6. by apply describeBorderEdges_result in Hedges.
Qed.
End DrawBlocks.

Section DrawClaims.
Implicit Types (wot : WalkontableInstance) (s : DrawState).
Implicit Types (corners : Corners).

(** C5.  When [draw] returns with a border-edges descriptor that is not
    empty, the selection has corners, the descriptor is the settings, two
    cells and four flags, and each flag tells whether the clipped bound
    is the bound of the selection: top for the first row, right for the
    last column, bottom for the last row, left for the first column.
    Said with the window: the top flag is set exactly when the first
    rendered row, moved by the north offset, is not below the first row of
    the selection, and likewise on the other three sides. *)
Theorem border_edge_flags wot s s' log :
  draw wot s = Normal (tt, s', log) ->
  getBorderEdgesDescriptor (selection s') <> [] ->
  let table := wtTable wot in
  exists corners firstTd lastTd top right bottom left,
    getCorners (selection s) = Normal corners
    /\ getBorderEdgesDescriptor (selection s')
       = [EntrySettings (settings (selection s));
          EntryCell firstTd; EntryCell lastTd;
          EntryFlag top; EntryFlag right; EntryFlag bottom; EntryFlag left]
    /\ (top = true
        <-> highlightFirstRenderedRow table corners = firstRowOf corners)
    /\ (right = true
        <-> highlightLastRenderedColumn table corners = lastColumnOf corners)
    /\ (bottom = true
        <-> highlightLastRenderedRow table corners = lastRowOf corners)
    /\ (left = true
        <-> highlightFirstRenderedColumn table corners = firstColumnOf corners)
    /\ (top = true
        <-> (getFirstRenderedRow table + renderingOffsetNorth table
             <= firstRowOf corners)%Z)
    /\ (right = true
        <-> (lastColumnOf corners
             <= nullToNumber (getLastRenderedColumn table)
                + renderingOffsetEast table)%Z)
    /\ (bottom = true
        <-> (lastRowOf corners
             <= nullToNumber (getLastRenderedRow table)
                + renderingOffsetSouth table)%Z)
    /\ (left = true
        <-> (getFirstRenderedColumn table <= firstColumnOf corners)%Z).
Proof.
  intros Hdraw Hdescriptor table. unfold getBorderEdgesDescriptor in *.
  destruct (cellRange (selection s)) as [range|] eqn:Hrange.
  - assert (Hc : exists corners, getCorners (selection s) = Normal corners)
      by (unfold getCorners; rewrite Hrange; by eexists).
    destruct Hc as [corners Hc].
    rewrite (draw_nonempty wot s corners Hc) in Hdraw.
    apply drawSelection_descriptor in Hdraw as [Hsame|(firstTd & lastTd & Hd)].
    { by rewrite Hsame in Hdescriptor. }
    exists corners, firstTd, lastTd, (hasTopEdge table corners),
      (hasRightEdge table corners), (hasBottomEdge table corners),
      (hasLeftEdge table corners).
    split; [exact Hc|]. split; [exact Hd|].
    unfold hasTopEdge, hasRightEdge, hasBottomEdge, hasLeftEdge.
    rewrite !Z.eqb_eq.
    unfold highlightFirstRenderedRow, highlightLastRenderedColumn,
      highlightLastRenderedRow, highlightFirstRenderedColumn.
    fold table. repeat split; lia.
  - destruct (draw_empty wot s Hrange) as (s2 & log2 & Hdraw2 & Hd2).
    rewrite Hdraw in Hdraw2. injection Hdraw2 as <- _. done.
Qed.

(** C6.  On a selection that is not empty and whose clipped rows or
    clipped columns are inverted, first above last, [draw] returns
    normally; the border-edges descriptor is empty afterwards; no class is
    added at the selected cells; and the inverted band is not
    highlighted: with inverted rows no class is added to a row header or
    along a row, with inverted columns none to a column header or along a
    column. *)
Theorem inverted_clip_renders_nothing wot s corners :
  getCorners (selection s) = Normal corners ->
  let table := wtTable wot in
  let rowsInverted :=
    (highlightLastRenderedRow table corners
     < highlightFirstRenderedRow table corners)%Z in
  let columnsInverted :=
    (highlightLastRenderedColumn table corners
     < highlightFirstRenderedColumn table corners)%Z in
  rowsInverted \/ columnsInverted ->
  exists s' log,
    draw wot s = Normal (tt, s', log)
    /\ getBorderEdgesDescriptor (selection s') = []
    /\ Forall (addsNoClassAt isBodySite) log
    /\ (rowsInverted -> Forall (addsNoClassAt isRowSite) log)
    /\ (columnsInverted -> Forall (addsNoClassAt isColumnSite) log).
Proof.
  intros Hc table rowsInverted columnsInverted Hinv.
  set (this := withBorderEdgesDescriptor [] (selection s)).
  set (allowed := fun effect =>
         addsNoClassAt isBodySite effect
         /\ (rowsInverted -> addsNoClassAt isRowSite effect)
         /\ (columnsInverted -> addsNoClassAt isColumnSite effect)).
  assert (Hquiet : quiet allowed (drawSelection wot this corners)).
  { unfold drawSelection.
    apply quiet_bind; [|intros _; apply quiet_bind;
                         [|intros _; apply quiet_bind;
                            [|intros _; apply quiet_bind]]].
    - destruct (Z.lt_ge_cases (highlightLastRenderedColumn table corners)
                  (highlightFirstRenderedColumn table corners)) as [Hlt|Hge].
      + eapply quiet_ext; [|apply (quiet_ret allowed tt)].
        intros s0. by apply highlightColumns_empty.
      + eapply quiet_weaken; [|apply quiet_highlightColumns].
        intros [site ? ?| | | |]; cbn; try done.
        intros Hsite. destruct site; try done;
          (split; [done|split; [done|]]); intros Hcols;
          unfold columnsInverted in Hcols; lia.
    - destruct (Z.lt_ge_cases (highlightLastRenderedRow table corners)
                  (highlightFirstRenderedRow table corners)) as [Hlt|Hge].
      + eapply quiet_ext; [|apply (quiet_ret allowed tt)].
        intros s0. by apply highlightRows_empty.
      + eapply quiet_weaken; [|apply quiet_highlightRows].
        intros [site ? ?| | | |]; cbn; try done.
        intros Hsite. destruct site; try done;
          (split; [done|split; [|done]]); intros Hrows;
          unfold rowsInverted in Hrows; lia.
    - destruct (_ && _); [|apply quiet_ret].
      eapply quiet_ext; [|apply (quiet_ret allowed tt)].
      intros s0.
      rewrite (bind_eq _ _ _ _ _ _
                 (describeBorderEdges_inverted wot this corners s0 Hinv)).
      by rewrite (selectCells_inverted wot this corners s0 Hinv).
    - by apply quiet_emitEffect.
    - intros _. destruct (hasSelectionHandle this); [|apply quiet_ret].
      apply quiet_bind.
      + eapply quiet_weaken; [|apply quiet_getSelectionHandle].
        by intros [].
      + intros _. by apply quiet_emitEffect. }
  destruct (Hquiet (mkDrawState this (classesOf s)))
    as ([] & s' & log & Hdraw & Hd & Hlog).
  exists s', log. split; [by rewrite (draw_nonempty wot s corners Hc)|].
  split; [exact Hd|].
  split; [|split].
  - eapply Forall_impl; [exact Hlog|]. by intros effect (H & _ & _).
  - intros Hrows. eapply Forall_impl; [exact Hlog|].
    intros effect (_ & H & _). by apply H.
  - intros Hcols. eapply Forall_impl; [exact Hlog|].
    intros effect (_ & _ & H). by apply H.
Qed.
End DrawClaims.

Lemma normal_completion (completion : Completion (unit * DrawState * list Effect))
    (otherwise : DrawState) :
  returnsNormally completion = true ->
  completion
  = Normal (tt, stateAfter completion otherwise, effectsOf completion).
Proof. by destruct completion as [[[[] s] log]|]. Qed.

Lemma border_edge_flags_witness :
  returnsNormally (draw sampleInstance (sampleState tallSelection)) = true
  /\ getBorderEdgesDescriptor
       (selection (stateAfter (draw sampleInstance (sampleState tallSelection))
                     (sampleState tallSelection))) <> []
  /\ exists corners firstTd lastTd top right bottom left,
       getCorners tallSelection = Normal corners
       /\ getBorderEdgesDescriptor
            (selection (stateAfter
                          (draw sampleInstance (sampleState tallSelection))
                          (sampleState tallSelection)))
          = [EntrySettings sampleSettings; EntryCell firstTd; EntryCell lastTd;
             EntryFlag top; EntryFlag right; EntryFlag bottom; EntryFlag left]
       /\ (bottom = true
           <-> highlightLastRenderedRow sampleTable corners
               = lastRowOf corners).
Proof.
  assert (Hreturns :
            returnsNormally (draw sampleInstance (sampleState tallSelection))
            = true)
    by (vm_compute; reflexivity).
  assert (Hdescriptor :
            getBorderEdgesDescriptor
              (selection (stateAfter
                            (draw sampleInstance (sampleState tallSelection))
                            (sampleState tallSelection))) <> [])
    by (vm_compute; discriminate).
  split; [exact Hreturns|]. split; [exact Hdescriptor|].
  destruct (border_edge_flags sampleInstance (sampleState tallSelection) _ _
              (normal_completion _ (sampleState tallSelection) Hreturns)
              Hdescriptor)
    as (corners & firstTd & lastTd & top & right & bottom & left
        & Hc & Hd & _ & _ & Hbottom & _).
  exists corners, firstTd, lastTd, top, right, bottom, left.
  split; [exact Hc|]. split; [exact Hd|exact Hbottom].
Defined.

Example tall_selection_descriptor :
  getBorderEdgesDescriptor
    (selection (stateAfter (draw sampleInstance (sampleState tallSelection))
                  (sampleState tallSelection)))
  = [EntrySettings sampleSettings; EntryCell 27; EntryCell 101;
     EntryFlag true; EntryFlag true; EntryFlag false; EntryFlag true].
Proof. vm_compute. reflexivity. Qed.

Lemma inverted_clip_renders_nothing_witness :
  getCorners (selection (sampleState sampleSelection))
  = Normal (10, 10, 10, 10)%Z
  /\ (highlightLastRenderedRow sampleTable (10, 10, 10, 10)%Z
      < highlightFirstRenderedRow sampleTable (10, 10, 10, 10)%Z)%Z
  /\ exists s' log,
       draw sampleInstance (sampleState sampleSelection) = Normal (tt, s', log)
       /\ getBorderEdgesDescriptor (selection s') = []
       /\ Forall (addsNoClassAt isBodySite) log.
Proof.
  assert (Hc : getCorners (selection (sampleState sampleSelection))
               = Normal (10, 10, 10, 10)%Z) by reflexivity.
  assert (Hrows : (highlightLastRenderedRow sampleTable (10, 10, 10, 10)%Z
                   < highlightFirstRenderedRow sampleTable (10, 10, 10, 10)%Z)%Z)
    by (vm_compute; reflexivity).
  split; [exact Hc|]. split; [exact Hrows|].
  destruct (inverted_clip_renders_nothing sampleInstance
              (sampleState sampleSelection) (10, 10, 10, 10)%Z Hc
              (or_introl Hrows))
    as (s' & log & Hdraw & Hd & Hbody & _).
  exists s', log. split; [exact Hdraw|]. split; [exact Hd|exact Hbody].
Defined.

Example single_cell_outside_window :
  effectsOf (draw sampleInstance (sampleState sampleSelection))
  = [AddClass ColumnHeaderSite 1010 ["ht__highlight"%string];
     BeforeDrawBorders (10, 10, 10, 10)%Z (Some "area"%string)].
Proof. vm_compute. reflexivity. Qed.

(** Outside the inverted case [draw] can throw: the lookup of a corner
    cell beyond the window calls a neighbour-table method without testing
    that the table has it. *)
Example unguarded_neighbour_lookup_throws :
  draw paneInstance (sampleState wideSelection) = Thrown "TypeError".
Proof. vm_compute. reflexivity. Qed.

(* ================================================================== *)
(** * Further properties of the ordered list transform *)
(* ================================================================== *)

Section ListTransformEdges.
Context {V : Type}.
Implicit Types (L : list V) (B rest R : list Z) (v : ValuesMapping V).

(** X1.  A first inserted index at or beyond the end of the list is clamped by
    [slice]: the new entries are appended. *)
Theorem first_index_beyond_end_appends L (i b0 : Z) rest v :
  (Z.of_nat (length L) <= b0)%Z ->
  getListWithInsertedItems L i (b0 :: rest) v
  = L ++ newEntries v (b0 :: rest).
Proof.
  intros Hb. rewrite inserted_items_shape.
  assert (Hp : splicePosition L b0 = length L).
  { unfold splicePosition, relativeIndex.
    destruct (Z.ltb_spec b0 0); lia. }
  rewrite Hp, firstn_all, drop_all, app_nil_r. reflexivity.
Qed.

(** X2.  A negative first inserted index counts from the end of the list, and
    not further back than its start: the cut is at [length L + b0], or at
    0 when that is negative. *)
Theorem negative_first_index_counts_from_end L (i b0 : Z) rest v :
  (b0 < 0)%Z ->
  let cut := Z.to_nat (Z.of_nat (length L) + b0) in
  getListWithInsertedItems L i (b0 :: rest) v
  = take cut L ++ newEntries v (b0 :: rest) ++ drop cut L.
Proof.
  intros Hb cut. rewrite inserted_items_shape.
  assert (Hp : splicePosition L b0 = cut).
  { unfold splicePosition, relativeIndex, cut.
    destruct (Z.ltb_spec b0 0); lia. }
  by rewrite Hp.
Qed.

(** X3.  Whatever integer the first inserted index is, the insertion keeps
    every element of the list in its order: removing the block of new
    entries, which starts at the position [slice] computed, gives the
    list back. *)
Theorem insertion_keeps_the_list L (i b0 : Z) rest v :
  getListWithRemovedItems (getListWithInsertedItems L i (b0 :: rest) v)
    (seqZ (Z.of_nat (splicePosition L b0))
          (Z.of_nat (length (b0 :: rest))))
  = L.
Proof.
  rewrite inserted_items_shape.
  set (p := splicePosition L b0).
  assert (Hp : p <= length L) by apply splicePosition_le.
  assert (Htake : length (take p L) = p) by (rewrite length_take; lia).
  unfold getListWithRemovedItems, arrayFilter.
  rewrite !arrayFilterFrom_app, Htake, length_newEntries. cbn [Nat.add].
  rewrite arrayFilterFrom_all, arrayFilterFrom_none, arrayFilterFrom_all.
  - cbn [app]. apply take_drop.
  - intros j x Hj. apply negb_true_iff, not_true_iff_false.
    rewrite includes_seqZ. lia.
  - intros j x Hj. rewrite length_newEntries in Hj.
    apply negb_false_iff, includes_seqZ. lia.
  - intros j x Hj. apply negb_true_iff, not_true_iff_false.
    rewrite includes_seqZ. lia.
Qed.

Lemma arrayFilterFrom_ext i L (p q : V -> nat -> bool) :
  (forall j x, i <= j < i + length L -> p x j = q x j) ->
  arrayFilterFrom i L p = arrayFilterFrom i L q.
Proof.
  revert i. induction L as [|x L IH]; intros i Hpq; cbn; [reflexivity|].
  rewrite (Hpq i x) by (cbn; lia).
  rewrite (IH (S i)); [reflexivity|].
  intros j y Hj. apply Hpq. cbn. lia.
Qed.


(** X5.  The result of a removal depends on which indexes are listed, not on
    their order nor on how often each is listed. *)
Theorem removal_depends_on_the_set L R R' :
  (forall x, x ∈ R <-> x ∈ R') ->
  getListWithRemovedItems L R = getListWithRemovedItems L R'.
Proof.
  intros Hset. unfold getListWithRemovedItems, arrayFilter.
  apply arrayFilterFrom_ext. intros j x _. f_equal.
  apply eq_true_iff_eq. rewrite !includes_true_iff. apply Hset.
Qed.

(** X6.  Removing a block of [n] consecutive positions from position [b] on
    splices the block out. *)
Theorem removal_of_a_block L (b n : nat) :
  b + n <= length L ->
  getListWithRemovedItems L (seqZ (Z.of_nat b) (Z.of_nat n))
  = take b L ++ drop (b + n) L.
Proof.
  intros Hbn.
  rewrite <- (take_drop b L) at 1.
  rewrite <- (take_drop n (drop b L)) at 1.
  rewrite drop_drop.
  assert (Htake : length (take b L) = b) by (rewrite length_take; lia).
  assert (Hmid : length (take n (drop b L)) = n)
    by (rewrite length_take, length_drop; lia).
  unfold getListWithRemovedItems, arrayFilter.
  rewrite !arrayFilterFrom_app, Htake, Hmid. cbn [Nat.add].
  rewrite arrayFilterFrom_all, arrayFilterFrom_none, arrayFilterFrom_all.
  - reflexivity.
  - intros j x Hj. apply negb_true_iff, not_true_iff_false.
    rewrite includes_seqZ. lia.
  - intros j x Hj. rewrite Hmid in Hj.
    apply negb_false_iff, includes_seqZ. lia.
  - intros j x Hj. apply negb_true_iff, not_true_iff_false.
    rewrite includes_seqZ. lia.
Qed.

Lemma arrayFilterFrom_sublist i L (p : V -> nat -> bool) :
  arrayFilterFrom i L p `sublist_of` L.
Proof.
  revert i. induction L as [|x L IH]; intros i; cbn; [done|].
  destruct (p x i); [by apply sublist_skip|by apply sublist_cons].
Qed.

Lemma arrayFilterFrom_elem i L (p : V -> nat -> bool) x :
  x ∈ arrayFilterFrom i L p
  <-> exists j, L !! j = Some x /\ p x (i + j) = true.
Proof.
  revert i. induction L as [|y L IH]; intros i; cbn.
  - split; [by intros ?%elem_of_nil|]. by intros (j & ? & _).
  - assert (Hrest : x ∈ arrayFilterFrom (S i) L p
                    <-> exists j, (y :: L) !! S j = Some x
                                  /\ p x (i + S j) = true).
    { rewrite IH. split; intros (j & Hj & Hp); exists j; split; try done.
      - by rewrite Nat.add_succ_r.
      - by rewrite Nat.add_succ_r in Hp. }
    destruct (p y i) eqn:Hy.
    + rewrite elem_of_cons, Hrest. split.
      * intros [->|(j & Hj & Hp)]; [|by exists (S j)].
        exists 0. by rewrite Nat.add_0_r.
      * intros ([|j] & Hj & Hp); [left; by injection Hj|].
        right. by exists j.
    + rewrite Hrest. split.
      * intros (j & Hj & Hp). by exists (S j).
      * intros ([|j] & Hj & Hp); [|by exists j].
        injection Hj as ->. rewrite Nat.add_0_r in Hp. congruence.
Qed.

(** X7.  A removal keeps the survivors in their order, and the survivors are
    exactly the elements at positions that are not listed. *)
Theorem removal_keeps_the_others L R :
  getListWithRemovedItems L R `sublist_of` L
  /\ forall x, x ∈ getListWithRemovedItems L R
               <-> exists j, L !! j = Some x /\ Z.of_nat j ∉ R.
Proof.
  unfold getListWithRemovedItems, arrayFilter.
  split; [apply arrayFilterFrom_sublist|].
  intros x. rewrite arrayFilterFrom_elem.
  split; intros (j & Hj & Hp); exists j; split; try done.
  - apply negb_true_iff, not_true_iff_false in Hp.
    by rewrite includes_true_iff in Hp.
  - apply negb_true_iff, not_true_iff_false.
    by rewrite includes_true_iff.
Qed.

(** X8.  With a plain value, inserting a batch at an index of the list is the
    same as inserting its entries one at a time at that index. *)
Theorem batch_insertion_one_at_a_time L (i i' : Z) (b0 : nat) (b1 : Z)
    rest (x : V) :
  b0 <= length L ->
  getListWithInsertedItems L i (Z.of_nat b0 :: b1 :: rest) (PlainValue x)
  = getListWithInsertedItems
      (getListWithInsertedItems L i (Z.of_nat b0 :: rest) (PlainValue x))
      i' [Z.of_nat b0] (PlainValue x).
Proof.
  intros Hb.
  rewrite !(inserted_items_in_range L) by lia. rewrite Nat2Z.id.
  set (inner := take b0 L ++ _ ++ drop b0 L) at 2.
  assert (Htake : length (take b0 L) = b0) by (rewrite length_take; lia).
  assert (Hinner : b0 <= length inner)
    by (subst inner; rewrite length_app, Htake; lia).
  rewrite (inserted_items_in_range inner) by lia. rewrite Nat2Z.id.
  subst inner.
  rewrite take_app_le, drop_app_ge by lia.
  rewrite take_take, Nat.min_id, Htake, Nat.sub_diag. cbn [drop].
  assert (Hplain : forall B, newEntries (PlainValue x) B
                             = replicate (length B) x).
  { intros B. unfold newEntries, mapWithIndex.
    generalize 0. induction B as [|b B IH]; intros k; cbn; [done|].
    f_equal. specialize (IH (S k)).
    rewrite <- IH. apply imap_ext. by intros. }
  rewrite !Hplain. cbn. reflexivity.
Qed.
End ListTransformEdges.

(* ================================================================== *)
(** * Further properties of the map collection *)
(* ================================================================== *)

Import MapCollectionPrograms.

Lemma mappingsHas_false_iff (name : string) ms :
  mappingsHas name ms = false <-> name ∉ ms.*1.
Proof.
  unfold mappingsHas. induction ms as [|[key r] ms IH]; cbn.
  - split; [intros _; apply not_elem_of_nil|done].
  - rewrite not_elem_of_cons.
    destruct (String.eqb_spec key name) as [->|Hne]; [split; [done|tauto]|].
    rewrite IH. split; [intros ?; split; [congruence|done]|tauto].
Qed.

Lemma mappingsSet_fresh (name : string) (r : MapRef) ms :
  mappingsHas name ms = false -> mappingsSet name r ms = ms ++ [(name, r)].
Proof.
  unfold mappingsHas. induction ms as [|[key old] ms IH]; cbn; [done|].
  destruct (String.eqb key name); [done|]. intros H. by rewrite IH.
Qed.

Lemma mappingsDelete_keys (name : string) ms :
  (mappingsDelete name ms).*1 = filter (fun key => key <> name) ms.*1.
Proof.
  unfold mappingsDelete. induction ms as [|[key r] ms IH]; [done|].
  rewrite fmap_cons, filter_cons. cbn [List.filter fst].
  destruct (String.eqb_spec key name) as [->|Hne]; cbn [negb].
  - by rewrite decide_False by tauto.
  - rewrite decide_True by done. rewrite fmap_cons. cbn [fst]. by rewrite IH.
Qed.

Lemma mappingsDelete_length (name : string) ms (r : MapRef) :
  NoDup ms.*1 -> mappingsGet name ms = Some r ->
  S (length (mappingsDelete name ms)) = length ms.
Proof.
  unfold mappingsDelete. induction ms as [|[key old] ms IH]; cbn; [done|].
  intros [Hnotin Hnd]%NoDup_cons.
  destruct (String.eqb_spec key name) as [->|Hne]; cbn.
  - intros _. f_equal.
    assert (Hfresh : mappingsHas name ms = false)
      by by apply mappingsHas_false_iff.
    clear -Hfresh. unfold mappingsHas in Hfresh.
    induction ms as [|[key r] ms IH]; cbn in *; [done|].
    destruct (String.eqb key name); [done|]. cbn. by rewrite IH.
  - intros Hget. by rewrite (IH Hnd Hget).
Qed.

Lemma mappingsGet_set_ne (n name : string) (r : MapRef) ms :
  n <> name -> mappingsGet n (mappingsSet name r ms) = mappingsGet n ms.
Proof.
  intros Hne. induction ms as [|[key old] ms IH]; cbn.
  - by destruct (String.eqb_spec name n); [congruence|].
  - destruct (String.eqb_spec key name) as [->|Hkey]; cbn.
    + by destruct (String.eqb_spec name n); [congruence|].
    + by rewrite IH.
Qed.

Lemma mappingsGet_delete_ne (n name : string) ms :
  n <> name -> mappingsGet n (mappingsDelete name ms) = mappingsGet n ms.
Proof.
  intros Hne. unfold mappingsDelete.
  induction ms as [|[key old] ms IH]; cbn; [done|].
  destruct (String.eqb_spec key name) as [->|Hkey]; cbn.
  - rewrite IH. by destruct (String.eqb_spec name n); [congruence|].
  - by rewrite IH.
Qed.

Section CollectionFrame.
Context {V : Type}.
Implicit Types (w : World V) (this : MapCollection) (sys : System V).

(** X9.  Registering or unregistering one name does not change what [get]
    returns for any other name. *)
Theorem other_names_are_untouched (n name : string) (r : MapRef) this w :
  n <> name ->
  get n (register name r (this, w)).1 = get n this
  /\ get n (unregister name (this, w)).1 = get n this.
Proof.
  intros Hne. unfold get. split; cbn.
  - destruct (mappingsHas name (mappings this)); cbn; [done|].
    by apply mappingsGet_set_ne.
  - destruct (mappingsGet name (mappings this)); cbn; [|done].
    by apply mappingsGet_delete_ne.
Qed.

(** Neither [register] nor [unregister] changes the values of any map.
    [register] emits no notification; [unregister] of a registered name
    emits one change of the collection, carrying the removed map. *)
Theorem registration_leaves_values (name : string) (r : MapRef) this w :
  (forall r', indexedValues (heap (register name r (this, w)).2 r')
              = indexedValues (heap w r'))
  /\ notifications (register name r (this, w)).2 = notifications w
  /\ (forall r', indexedValues (heap (unregister name (this, w)).2 r')
                 = indexedValues (heap w r'))
  /\ notifications (unregister name (this, w)).2
     = notifications w
       ++ match get name this with
          | Some map => [CollectionChange (collectionId this) map]
          | None => []
          end.
Proof.
  unfold get. repeat split.
  - intros r'. cbn. destruct (mappingsHas name (mappings this)); cbn; [done|].
    by destruct (Nat.eqb r' r).
  - cbn. by destruct (mappingsHas name (mappings this)).
  - intros r'. cbn. destruct (mappingsGet name (mappings this)) as [map|];
      cbn; [|done]. by destruct (Nat.eqb r' map).
  - cbn. destruct (mappingsGet name (mappings this)); cbn; [done|].
    by rewrite app_nil_r.
Qed.
End CollectionFrame.

Section SharedMaps.
Context {V : Type}.
Implicit Types (w : World V) (this : MapCollection) (r : MapRef).

Lemma forEach_mutateMap_times (operation : IndexMap V -> list V)
    (ms : list (string * MapRef)) w r :
  heap (fold_left (fun acc entry => mutateMap operation (snd entry) acc) ms w) r
  = Nat.iter (length (filter (fun r' => r' = r) (List.map snd ms)))
             (mutated operation) (heap w r).
Proof.
  revert w. induction ms as [|[name r0] ms IH]; intros w; [done|].
  cbn [fold_left List.map snd]. rewrite IH, filter_cons.
  destruct (decide (r0 = r)) as [->|Hne].
  - cbn [length]. rewrite Nat.iter_succ_r. f_equal.
    apply mutateMap_heap_same.
  - f_equal. apply mutateMap_heap_other. congruence.
Qed.

(** X10.  A fan-out visits the entries of [this.mappings], not the map objects:
    a map object is mutated once for every name it is registered under,
    and a map that is not registered is left alone. *)
Theorem fan_out_visits_every_entry this w r :
  (forall i B,
      heap (insertToEvery i B this w) r
      = Nat.iter (timesRegistered r this) (mutated (valuesAfterInsert i B))
                 (heap w r))
  /\ (forall removed,
        heap (removeFromEvery removed this w) r
        = Nat.iter (timesRegistered r this)
                   (mutated (valuesAfterRemove removed)) (heap w r))
  /\ (forall len,
        heap (initEvery len this w) r
        = Nat.iter (timesRegistered r this) (mutated (valuesAfterInit len))
                   (heap w r)).
Proof.
  repeat split; intros; apply forEach_mutateMap_times.
Qed.

End SharedMaps.

Section FanOutLengths.
Context {V : Type}.
Implicit Types (w : World V) (this : MapCollection) (m : IndexMap V).

End FanOutLengths.



Lemma total_size_insert (l : list MapCollection) (k : nat)
    (this this' : MapCollection) :
  l !! k = Some this ->
  foldr (fun c total => getLength c + total) 0 (<[k := this']> l)
  + getLength this
  = foldr (fun c total => getLength c + total) 0 l + getLength this'.
Proof.
  revert k. induction l as [|c l IH]; intros [|k] Hk; try done.
  - injection Hk as ->. cbn [foldr]. change (<[0:=this']> (this :: l))
      with (this' :: l). cbn [foldr]. lia.
  - specialize (IH k Hk). change (<[S k:=this']> (c :: l))
      with (c :: <[k:=this']> l). cbn [foldr]. lia.
Qed.

Section CounterInvariant.
Context {V : Type}.
Implicit Types (w : World V) (this : MapCollection) (sys : System V).

Lemma balanced_register name (r : MapRef) :
  balanced (V:=V) (register name r).
Proof.
  intros this w Hu. unfold uniqueNames, getLength in *. cbn.
  destruct (mappingsHas name (mappings this)) eqn:Hhas; cbn; [done|].
  rewrite mappingsSet_fresh by done. split.
  - rewrite fmap_app. apply NoDup_app. split; [done|]. split.
    + intros key Hkey ->%list_elem_of_singleton.
      by apply mappingsHas_false_iff in Hhas.
    + apply NoDup_singleton.
  - rewrite length_app. cbn. lia.
Qed.

Lemma balanced_unregister name : balanced (V:=V) (unregister name).
Proof.
  intros this w Hu. unfold uniqueNames, getLength in *. cbn.
  destruct (mappingsGet name (mappings this)) as [r|] eqn:Hget; cbn; [|done].
  split.
  - rewrite mappingsDelete_keys. by apply NoDup_filter.
  - pose proof (mappingsDelete_length name (mappings this) r Hu Hget). lia.
Qed.

Lemma balanced_onMaps (method : MapCollection -> World V -> World V) :
  (forall this w, registeredMaps (method this w) = registeredMaps w) ->
  balanced (onMaps method).
Proof. intros Hm this w Hu. cbn. split; [done|]. by rewrite Hm. Qed.

Lemma forEachMap_counter (operation : IndexMap V -> list V) this w :
  registeredMaps (forEachMap (mutateMap operation) this w) = registeredMaps w.
Proof.
  unfold forEachMap. revert w.
  induction (mappings this) as [|entry ms IH]; intros w; [done|].
  cbn [fold_left]. by rewrite IH.
Qed.

Lemma onCollection_balanced k method sys :
  balanced method ->
  Forall uniqueNames (collections sys) ->
  Forall uniqueNames (collections (onCollection k method sys))
  /\ (counterOf (onCollection k method sys)
      - totalLength (onCollection k method sys)
      = counterOf sys - totalLength sys)%Z.
Proof.
  intros Hb Hu. unfold onCollection.
  destruct (collections sys !! k) as [this|] eqn:Hk; [|done].
  assert (Hthis : uniqueNames this)
    by (eapply Forall_lookup_1; [exact Hu|exact Hk]).
  destruct (Hb this (world sys) Hthis) as [Hu' Hc].
  destruct (method (this, world sys)) as [this' w']. cbn in *.
  split; [by apply Forall_insert|].
  unfold counterOf, getRegisteredMapsCounter, totalLength. cbn.
  pose proof (total_size_insert (collections sys) k this this' Hk). lia.
Qed.

Lemma perform_balanced operation sys :
  Forall uniqueNames (collections sys) ->
  Forall uniqueNames (collections (perform operation sys))
  /\ (counterOf (perform operation sys) - totalLength (perform operation sys)
      = counterOf sys - totalLength sys)%Z.
Proof.
  destruct operation; cbn [perform]; apply onCollection_balanced.
  - apply balanced_register.
  - apply balanced_unregister.
  - apply balanced_onMaps. intros. apply forEachMap_counter.
  - apply balanced_onMaps. intros. apply forEachMap_counter.
  - apply balanced_onMaps. intros. apply forEachMap_counter.
Qed.

(** X12.  Over any sequence of calls of [register], [unregister],
    [insertToEvery], [removeFromEvery] and [initEvery] on any collections,
    the counter moves exactly as the number of registered maps does: the
    difference between the counter and the total size of the collections
    never changes.  So a counter above its starting value means that some
    collection still holds a map. *)
Theorem counter_tracks_total_size (operations : list Operation) sys :
  Forall uniqueNames (collections sys) ->
  Forall uniqueNames (collections (performAll operations sys))
  /\ (counterOf (performAll operations sys)
      - totalLength (performAll operations sys)
      = counterOf sys - totalLength sys)%Z.
Proof.
  revert sys. induction operations as [|operation operations IH];
    intros sys Hu; [done|].
  cbn [performAll fold_left]. fold (performAll operations (perform operation sys)).
  destruct (perform_balanced operation sys Hu) as [Hu1 Hc1].
  destruct (IH _ Hu1) as [Hu2 Hc2]. split; [done|]. lia.
Qed.
End CounterInvariant.

(* ================================================================== *)
(** * Further properties of the selection *)
(* ================================================================== *)

Import RenderFacts.

Section DrawEdges.
Implicit Types (wot : WalkontableInstance) (s : DrawState).
Implicit Types (this : Selection) (corners : Corners).

Lemma draw_empty_result wot s :
  isEmpty (selection s) = true ->
  draw wot s
  = Normal (tt,
            mkDrawState (withBorderEdgesDescriptor [] (selection s))
                        (classesOf s),
            if hasSelectionHandle (selection s)
               && getSelectionHandleIfExists wot (selection s)
            then [HandleDisappear (instanceId wot)]
            else []).
Proof.
  unfold isEmpty. destruct (cellRange (selection s)) eqn:Hrange; [done|].
  intros _.
  unfold draw, mbind, Draw_bind, updateThis, getThis, isEmpty. cbn.
  rewrite Hrange.
  change (hasSelectionHandle (withBorderEdgesDescriptor [] (selection s)))
    with (hasSelectionHandle (selection s)).
  change (getSelectionHandleIfExists wot
            (withBorderEdgesDescriptor [] (selection s)))
    with (getSelectionHandleIfExists wot (selection s)).
  destruct (hasSelectionHandle _); [|done].
  by destruct (getSelectionHandleIfExists _ _).
Qed.

(** X13.  On an empty selection [draw] only empties the border-edges
    descriptor; it hides the selection handle of the instance when
    handles are configured and the instance has one, and makes no other
    call. *)
Theorem draw_of_empty_selection wot s :
  isEmpty (selection s) = true ->
  draw wot s
  = Normal (tt,
            mkDrawState (withBorderEdgesDescriptor [] (selection s))
                        (classesOf s),
            if hasSelectionHandle (selection s)
               && getSelectionHandleIfExists wot (selection s)
            then [HandleDisappear (instanceId wot)]
            else []).
Proof. apply draw_empty_result. Qed.

Lemma describeBorderEdges_without_border wot this corners s :
  border (settings this) = None ->
  describeBorderEdges wot this corners s = Normal (tt, s, []).
Proof.
  intros Hb. unfold describeBorderEdges. rewrite Hb.
  rewrite bool_decide_eq_false_2; [done|]. by intros [? ?].
Qed.

(** X14.  Without a border configuration [draw] never throws: the cells of the
    corners are not looked up.  The descriptor is empty afterwards and no
    selection handle is touched. *)
Theorem draw_without_border_returns wot s :
  border (settings (selection s)) = None ->
  exists s' log,
    draw wot s = Normal (tt, s', log)
    /\ getBorderEdgesDescriptor (selection s') = []
    /\ Forall touchesNoHandle log.
Proof.
  intros Hb.
  destruct (cellRange (selection s)) as [range|] eqn:Hrange.
  - assert (Hc : exists corners, getCorners (selection s) = Normal corners)
      by (unfold getCorners; rewrite Hrange; by eexists).
    destruct Hc as [corners Hc].
    set (this := withBorderEdgesDescriptor [] (selection s)).
    assert (Hquiet : quiet touchesNoHandle (drawSelection wot this corners)).
    { unfold drawSelection.
      apply quiet_bind; [|intros _; apply quiet_bind;
                           [|intros _; apply quiet_bind;
                              [|intros _; apply quiet_bind]]].
      - eapply quiet_weaken; [|apply quiet_highlightColumns].
        by intros [].
      - eapply quiet_weaken; [|apply quiet_highlightRows].
        by intros [].
      - destruct (_ && _); [|apply quiet_ret].
        apply quiet_bind.
        + eapply quiet_ext; [|apply (quiet_ret touchesNoHandle tt)].
          intros s0. by apply describeBorderEdges_without_border.
        + intros _. eapply quiet_weaken; [|apply quiet_selectCells].
          by intros [].
      - by apply quiet_emitEffect.
      - intros _. unfold hasSelectionHandle, this. cbn. rewrite Hb.
        apply quiet_ret. }
    destruct (Hquiet (mkDrawState this (classesOf s)))
      as ([] & s' & log & Hdraw & Hd & Hlog).
    exists s', log.
    split; [by rewrite (draw_nonempty wot s corners Hc)|]. by split.
  - rewrite draw_empty_result by (unfold isEmpty; by rewrite Hrange).
    eexists _, _. split; [reflexivity|]. split; [reflexivity|].
    unfold hasSelectionHandle. rewrite Hb. cbn. constructor.
Qed.

Lemma highlightColumns_headers_only wot this corners :
  getRenderedRowsCount (wtTable wot) = 0%Z ->
  quiet (addsClassAt isHeaderSite) (highlightColumns wot this corners).
Proof.
  intros Hrows. unfold highlightColumns.
  destruct (_ && _); [|apply quiet_ret].
  apply quiet_forRange. intros sourceColumn.
  apply quiet_bind; [by apply quiet_addClassIfElemExists|]. intros _.
  destruct (truthyString _); [|apply quiet_ret].
  eapply quiet_ext; [|apply (quiet_ret _ tt)].
  intros s0. apply forRange_empty. lia.
Qed.

Lemma highlightRows_headers_only wot this corners :
  getRenderedColumnsCount (wtTable wot) = 0%Z ->
  quiet (addsClassAt isHeaderSite) (highlightRows wot this corners).
Proof.
  intros Hcolumns. unfold highlightRows.
  destruct (_ && _); [|apply quiet_ret].
  apply quiet_forRange. intros sourceRow.
  apply quiet_bind; [by apply quiet_addClassIfElemExists|]. intros _.
  destruct (truthyString _); [|apply quiet_ret].
  eapply quiet_ext; [|apply (quiet_ret _ tt)].
  intros s0. apply forRange_empty. lia.
Qed.

(** X15.  When no row or no column is rendered, [draw] on a selection that is
    not empty returns normally, even with a border configured; the
    descriptor is empty afterwards, and classes are added to headers
    only, never to a cell. *)
Theorem draw_with_nothing_rendered wot s corners :
  getCorners (selection s) = Normal corners ->
  getRenderedRowsCount (wtTable wot) = 0%Z
  \/ getRenderedColumnsCount (wtTable wot) = 0%Z ->
  exists s' log,
    draw wot s = Normal (tt, s', log)
    /\ getBorderEdgesDescriptor (selection s') = []
    /\ Forall addsOnlyToHeaders log.
Proof.
  intros Hc Hnone.
  set (this := withBorderEdgesDescriptor [] (selection s)).
  assert (Hquiet : quiet addsOnlyToHeaders (drawSelection wot this corners)).
  { unfold drawSelection.
    apply quiet_bind; [|intros _; apply quiet_bind;
                         [|intros _; apply quiet_bind;
                            [|intros _; apply quiet_bind]]].
    - destruct Hnone as [Hrows|Hcolumns].
      + eapply quiet_weaken; [|by apply highlightColumns_headers_only].
        by intros [].
      + unfold highlightColumns. rewrite Hcolumns. cbn. apply quiet_ret.
    - destruct Hnone as [Hrows|Hcolumns].
      + unfold highlightRows. rewrite Hrows. cbn. apply quiet_ret.
      + eapply quiet_weaken; [|by apply highlightRows_headers_only].
        by intros [].
    - destruct Hnone as [-> | ->]; cbn; rewrite ?andb_false_r;
        apply quiet_ret.
    - by apply quiet_emitEffect.
    - intros _. destruct (hasSelectionHandle this); [|apply quiet_ret].
      apply quiet_bind.
      + eapply quiet_weaken; [|apply quiet_getSelectionHandle].
        by intros [].
      + intros _. by apply quiet_emitEffect. }
  destruct (Hquiet (mkDrawState this (classesOf s)))
    as ([] & s' & log & Hdraw & Hd & Hlog).
  exists s', log.
  split; [by rewrite (draw_nonempty wot s corners Hc)|]. by split.
Qed.
End DrawEdges.

Section DrawWithin.
Implicit Types (wot : WalkontableInstance) (s : DrawState).
Implicit Types (this : Selection) (corners : Corners).

Lemma quiet_forEach_in {A} allowed (items : list A) (body : A -> Draw unit) :
  (forall item, item ∈ items -> quiet allowed (body item)) ->
  quiet allowed (forEach items body).
Proof.
  induction items as [|item items IH]; intros Hbody; cbn [forEach].
  - apply quiet_ret.
  - apply quiet_bind; [apply Hbody; left|]. intros _.
    apply IH. intros item' Hin. apply Hbody. by right.
Qed.

Lemma quiet_forRange_in allowed (first last : Z) (body : Z -> Draw unit) :
  (forall i, (first <= i <= last)%Z -> quiet allowed (body i)) ->
  quiet allowed (forRange first last body).
Proof.
  intros Hbody. apply quiet_forEach_in. intros i Hi.
  apply elem_of_seqZ in Hi. apply Hbody. lia.
Qed.

Lemma quiet_addClass_when allowed site element names :
  allowed (AddClass site element (presentClassNames names)) ->
  quiet allowed (addClass site element names).
Proof.
  intros Hallowed s0. unfold addClass. eexists tt, _, _.
  split; [reflexivity|]. split; [done|]. by apply Forall_singleton.
Qed.

Lemma quiet_addClassAtCoords_within wot corners site r c name mark :
  inClippedRectangle (wtTable wot) corners r c ->
  quiet (marksWithin wot corners) (addClassAtCoords site wot r c name mark).
Proof.
  intros Hin. unfold addClassAtCoords.
  destruct (getCell _ _) as [TD| |] eqn:Hcell; try apply quiet_ret.
  assert (Hadd : forall names,
             quiet (marksWithin wot corners) (addClass site TD names)).
  { intros names. apply quiet_addClass_when. intros _. by exists r, c. }
  destruct mark; [|apply Hadd].
  apply quiet_bind; [apply quiet_getThis|]. intros this.
  apply quiet_bind; [apply quiet_getClassesOf|]. intros classes.
  apply quiet_bind; [|intros _; apply Hadd].
  case_bool_decide; [apply quiet_ret|]. by apply quiet_updateThis.
Qed.

Lemma quiet_selectCells_within wot this corners :
  quiet (marksWithin wot corners) (selectCells wot this corners).
Proof.
  unfold selectCells.
  apply quiet_forRange_in. intros sourceRow Hrow.
  apply quiet_forRange_in. intros sourceColumn Hcolumn.
  assert (Hin : inClippedRectangle (wtTable wot) corners sourceRow sourceColumn).
  { unfold highlightFirstRenderedRow, highlightLastRenderedRow,
      highlightFirstRenderedColumn, highlightLastRenderedColumn in *.
    unfold inClippedRectangle. lia. }
  apply quiet_bind.
  - destruct (_ && _); [by apply quiet_addClassAtCoords_within|apply quiet_ret].
  - intros _. destruct (truthyString _); [|apply quiet_ret].
    destruct (onAfterDrawSelection _ _ _ _ _);
      [by apply quiet_addClassAtCoords_within|apply quiet_ret].
Qed.

Lemma callNeighbourTable_silent neighbour s (u : unit) s' log :
  callNeighbourTable neighbour s = Normal (u, s', log) -> log = [].
Proof. intros H. by apply callNeighbourTable_state in H as [_ ->]. Qed.

Lemma getRelevantCell_silent wot r c firstRow lastRow lastColumn s td s' log :
  getRelevantCell wot r c firstRow lastRow lastColumn s = Normal (td, s', log) ->
  log = [].
Proof.
  unfold getRelevantCell.
  destruct (getCell _ _); try by intros [= _ _ <-].
  intros H.
  apply bind_Normal in H as (u & s1 & log1 & log2 & Hcall & Hret & ->).
  injection Hret as _ _ <-. rewrite app_nil_r.
  repeat match type of Hcall with
         | (if ?b then _ else _) _ = _ => destruct b
         end;
    try (by apply callNeighbourTable_silent in Hcall).
  by injection Hcall as _ _ <-.
Qed.

Lemma describeBorderEdges_silent wot this corners s (u : unit) s' log :
  describeBorderEdges wot this corners s = Normal (u, s', log) -> log = [].
Proof.
  unfold describeBorderEdges.
  destruct (_ && _); [|by intros [= _ _ <-]].
  intros H.
  apply bind_Normal in H as (firstTd & s1 & log1 & log2 & Hfirst & H & ->).
  apply getRelevantCell_silent in Hfirst as ->.
  apply bind_Normal in H as (lastTd & s2 & log3 & log4 & Hlast & H & ->).
  assert (log3 = []) as ->.
  { destruct (_ && _) in Hlast.
    - by injection Hlast as _ _ <-.
    - by apply getRelevantCell_silent in Hlast. }
  destruct firstTd, lastTd; by injection H as _ _ <-.
Qed.

(** X16.  Whenever [draw] returns, every class it has added at the selected
    cells, the selection class or the class of the hook, went to the
    element of a cell that lies both in the selection and in the rendered
    window extended by the neighbour offsets. *)
Theorem selected_classes_stay_within wot s corners s' log :
  getCorners (selection s) = Normal corners ->
  draw wot s = Normal (tt, s', log) ->
  Forall (marksWithin wot corners) log.
Proof.
  intros Hc Hdraw. rewrite (draw_nonempty wot s corners Hc) in Hdraw.
  set (this := withBorderEdgesDescriptor [] (selection s)) in *.
  unfold drawSelection in Hdraw.
  apply bind_Normal in Hdraw as (u1 & s1 & l1 & l1' & Hcolumns & H & ->).
  apply (quiet_result _ _ _ _ _ _ (quiet_highlightColumns wot this corners))
    in Hcolumns as [_ Hl1].
  apply bind_Normal in H as (u2 & s2 & l2 & l2' & Hrows & H & ->).
  apply (quiet_result _ _ _ _ _ _ (quiet_highlightRows wot this corners))
    in Hrows as [_ Hl2].
  apply bind_Normal in H as (u3 & s3 & l3 & l3' & Hbody & H & ->).
  apply bind_Normal in H as (u4 & s4 & l4 & l4' & Hhook & H & ->).
  injection Hhook as _ <- <-.
  repeat apply Forall_app_2.
  - eapply Forall_impl; [exact Hl1|]. intros [site ? ?| | | |]; cbn; try done.
    by destruct site.
  - eapply Forall_impl; [exact Hl2|]. intros [site ? ?| | | |]; cbn; try done.
    by destruct site.
  - destruct (_ && _) in Hbody; [|injection Hbody as _ _ <-; constructor].
    apply bind_Normal in Hbody as (u6 & s6 & l6 & l6' & Hedges & Hcells & ->).
    apply describeBorderEdges_silent in Hedges as ->. cbn [app].
    by apply (quiet_result _ _ _ _ _ _
                (quiet_selectCells_within wot this corners)) in Hcells as [_ ?].
  - by apply Forall_singleton.
  - destruct (hasSelectionHandle this).
    + apply bind_Normal in H as (u5 & s5 & l5 & l5' & Hhandle & H & ->).
      injection H as _ <-.
      apply (quiet_result _ _ _ _ _ _ (quiet_getSelectionHandle wot))
        in Hhandle as [_ Hl5].
      apply Forall_app_2; [|by apply Forall_singleton].
      eapply Forall_impl; [exact Hl5|]. by intros [].
    + injection H as _ <-. constructor.
Qed.

(** X17.  A corner cell inside the rendered window is looked up without any
    call to a neighbour table, so the lookup cannot throw there: it gives
    the cell of the table, or when the table answers with a number, what
    the instance finds, and [undefined] if that is not an element. *)
Theorem relevant_cell_inside_window wot (r c firstRenderedRow : Z)
    (lastRenderedRow lastRenderedColumn : option Z) s :
  (firstRenderedRow <= r <= nullToNumber lastRenderedRow
   /\ c <= nullToNumber lastRenderedColumn)%Z ->
  getRelevantCell wot r c firstRenderedRow lastRenderedRow lastRenderedColumn s
  = Normal (match getCell (wtTable wot) (mkCellCoords r c) with
            | CellElement td => Some td
            | CellNumber _ =>
                toRelevantCell (getCellAnywhere wot (mkCellCoords r c))
            | CellUndefined => None
            end, s, []).
Proof.
  intros (Hrow & Hcolumn). unfold getRelevantCell.
  destruct (getCell _ _); try reflexivity.
  destruct (Z.gtb_spec r (nullToNumber lastRenderedRow)); [lia|].
  destruct (Z.gtb_spec c (nullToNumber lastRenderedColumn)); [lia|].
  destruct (Z.ltb_spec r firstRenderedRow); [lia|].
  reflexivity.
Qed.

(** X18.  The selection handle of an instance is created at most once: after
    [getSelectionHandle] the instance has a handle, one was created only
    if there was none, and a second call finds it and changes nothing. *)
Theorem selection_handle_created_once wot s :
  exists s1,
    getSelectionHandle wot s
    = Normal (tt, s1,
              if getSelectionHandleIfExists wot (selection s) then []
              else [HandleCreated (instanceId wot)])
    /\ getSelectionHandleIfExists wot (selection s1) = true
    /\ getSelectionHandle wot s1 = Normal (tt, s1, []).
Proof.
  unfold getSelectionHandle, mbind, Draw_bind, getThis. cbn.
  destruct (getSelectionHandleIfExists wot (selection s)) eqn:Hfound.
  - exists s. cbn. rewrite Hfound. by repeat split.
  - eexists. cbn. split; [reflexivity|].
    assert (Hnow : getSelectionHandleIfExists wot
                     (setSelectionHandle (instanceId wot) (selection s)) = true).
    { unfold getSelectionHandleIfExists. cbn. apply bool_decide_eq_true.
      apply elem_of_app. right. left. }
    cbn. by rewrite Hnow.
Qed.
End DrawWithin.

Section DrawGrows.
Implicit Types (wot : WalkontableInstance) (s : DrawState).
Implicit Types (this : Selection) (corners : Corners).

Lemma grows_refl s : grows s s.
Proof. unfold grows. by split_and!. Qed.

Lemma grows_trans s1 s2 s3 : grows s1 s2 -> grows s2 s3 -> grows s1 s3.
Proof.
  intros (Hs & Hr & Hc & Hh & He) (Hs' & Hr' & Hc' & Hh' & He').
  unfold grows. split_and!; try congruence.
  - by etrans.
  - by etrans.
  - intros element x Hx. by apply He', He.
Qed.

Lemma steady_same {A} (m : Draw A) :
  (forall s value s' log, m s = Normal (value, s', log) -> s' = s) ->
  steady m.
Proof.
  intros Hm s value s' log H. apply Hm in H as ->.
  split; [apply grows_refl|done].
Qed.

Lemma steady_ret {A} (value : A) : steady (mret value).
Proof. apply steady_same. by intros s v s' log [= _ -> _]. Qed.

Lemma steady_bind {A B} (m : Draw A) (f : A -> Draw B) :
  steady m -> (forall value, steady (f value)) -> steady (m ≫= f).
Proof.
  intros Hm Hf s result s' log H.
  apply bind_Normal in H as (value & s1 & log1 & log2 & Em & Ef & _).
  destruct (Hm _ _ _ _ Em) as [Hg1 Hr1].
  destruct (Hf _ _ _ _ _ Ef) as [Hg2 Hr2].
  split; [by eapply grows_trans|auto].
Qed.

Lemma steady_forEach {A} (items : list A) (body : A -> Draw unit) :
  (forall item, steady (body item)) -> steady (forEach items body).
Proof.
  intros Hbody. induction items as [|item items IH]; cbn [forEach].
  - apply steady_ret.
  - apply steady_bind; [apply Hbody|]. intros _. exact IH.
Qed.

Lemma steady_addClass site element names : steady (addClass site element names).
Proof.
  intros s value s' log [= _ <- _]. split; [|done].
  unfold grows; split_and!; try done. cbn. intros e.
  destruct (Nat.eqb e element); [|done].
  intros c Hc. apply list_elem_of_union. by left.
Qed.

Lemma steady_addClassAtCoords site wot r c name mark :
  steady (addClassAtCoords site wot r c name mark).
Proof.
  unfold addClassAtCoords.
  destruct (getCell _ _) as [TD| |]; try apply steady_ret.
  destruct mark; [|apply steady_addClass].
  intros s value s' log H.
  unfold mbind, Draw_bind, getThis, getClassesOf in H. cbn in H.
  case_bool_decide as Hin; cbn in H.
  - injection H as _ <- _. split; [|done].
    unfold grows; split_and!; try done. cbn. intros e.
    destruct (Nat.eqb e TD); [|done].
    intros c' Hc. apply list_elem_of_union. by left.
  - injection H as _ <- _. split.
    + unfold grows; split_and!; try done; cbn.
      * by apply prefix_app_r.
      * intros e. destruct (Nat.eqb e TD); [|done].
        intros c' Hc. apply list_elem_of_union. by left.
    + intros [Hnames Hhandles]. split; [|done]. cbn.
      apply NoDup_app. split; [done|]. split; [|apply NoDup_singleton].
      by intros x Hx ->%list_elem_of_singleton.
Qed.

Lemma steady_getSelectionHandle wot : steady (getSelectionHandle wot).
Proof.
  intros s value s' log H.
  unfold getSelectionHandle, mbind, Draw_bind, getThis in H. cbn in H.
  destruct (getSelectionHandleIfExists wot (selection s)) eqn:Hfound;
    cbn in H; injection H as _ <- _.
  - split; [apply grows_refl|done].
  - split.
    + unfold grows; split_and!; try done. cbn. by apply prefix_app_r.
    + intros [Hnames Hhandles]. split; [done|]. cbn.
      apply NoDup_app. split; [done|]. split; [|apply NoDup_singleton].
      intros x Hx ->%list_elem_of_singleton.
      unfold getSelectionHandleIfExists in Hfound.
      by apply bool_decide_eq_false in Hfound.
Qed.

Lemma steady_descriptor (descriptor : list DescriptorEntry) :
  steady (updateThis (withBorderEdgesDescriptor descriptor)).
Proof.
  intros s value s' log [= _ <- _]. split; [|done].
  unfold grows. by split_and!.
Qed.

Lemma steady_emitEffect effect : steady (emitEffect effect).
Proof. apply steady_same. by intros s v s' log [= _ -> _]. Qed.

Lemma steady_getRelevantCell wot r c firstRow lastRow lastColumn :
  steady (getRelevantCell wot r c firstRow lastRow lastColumn).
Proof.
  apply steady_same. intros s v s' log H.
  by apply getRelevantCell_state in H.
Qed.

Lemma steady_highlightColumns wot this corners :
  steady (highlightColumns wot this corners).
Proof.
  unfold highlightColumns. destruct (_ && _); [|apply steady_ret].
  apply steady_forEach. intros sourceColumn.
  apply steady_bind.
  - unfold addClassIfElemExists.
    destruct (getColumnHeader _ _); [apply steady_addClass|apply steady_ret].
  - intros _. destruct (truthyString _); [|apply steady_ret].
    apply steady_forEach. intros renderedRow.
    destruct (_ || _); [apply steady_addClassAtCoords|apply steady_ret].
Qed.

Lemma steady_highlightRows wot this corners :
  steady (highlightRows wot this corners).
Proof.
  unfold highlightRows. destruct (_ && _); [|apply steady_ret].
  apply steady_forEach. intros sourceRow.
  apply steady_bind.
  - unfold addClassIfElemExists.
    destruct (getRowHeader _ _); [apply steady_addClass|apply steady_ret].
  - intros _. destruct (truthyString _); [|apply steady_ret].
    apply steady_forEach. intros renderedColumn.
    destruct (_ || _); [apply steady_addClassAtCoords|apply steady_ret].
Qed.

Lemma steady_describeBorderEdges wot this corners :
  steady (describeBorderEdges wot this corners).
Proof.
  unfold describeBorderEdges. destruct (_ && _); [|apply steady_ret].
  apply steady_bind; [apply steady_getRelevantCell|]. intros firstTd.
  apply steady_bind.
  - destruct (_ && _); [apply steady_ret|apply steady_getRelevantCell].
  - intros lastTd. destruct firstTd, lastTd; try apply steady_ret.
    apply steady_descriptor.
Qed.

Lemma steady_selectCells wot this corners :
  steady (selectCells wot this corners).
Proof.
  unfold selectCells.
  apply steady_forEach. intros sourceRow.
  apply steady_forEach. intros sourceColumn.
  apply steady_bind.
  - destruct (_ && _); [apply steady_addClassAtCoords|apply steady_ret].
  - intros _. destruct (truthyString _); [|apply steady_ret].
    destruct (onAfterDrawSelection _ _ _ _ _);
      [apply steady_addClassAtCoords|apply steady_ret].
Qed.

Lemma steady_draw wot : steady (draw wot).
Proof.
  unfold draw.
  apply steady_bind; [apply steady_descriptor|]. intros _.
  apply steady_bind; [apply steady_same; by intros s v s' log [= _ -> _]|].
  intros this. destruct (isEmpty this).
  - destruct (hasSelectionHandle this); [|apply steady_ret].
    destruct (getSelectionHandleIfExists wot this);
      [apply steady_emitEffect|apply steady_ret].
  - apply steady_bind.
    + apply steady_same. intros s v s' log H.
      destruct (getCorners this); [by injection H as _ -> _|done].
    + intros corners. unfold drawSelection.
      apply steady_bind; [apply steady_highlightColumns|]. intros _.
      apply steady_bind; [apply steady_highlightRows|]. intros _.
      apply steady_bind.
      * destruct (_ && _); [|apply steady_ret].
        apply steady_bind; [apply steady_describeBorderEdges|]. intros _.
        apply steady_selectCells.
      * intros _. apply steady_bind; [apply steady_emitEffect|]. intros _.
        destruct (hasSelectionHandle this); [|apply steady_ret].
        apply steady_bind; [apply steady_getSelectionHandle|]. intros _.
        apply steady_emitEffect.
Qed.

(** X19.  [draw] reads the geometry and never writes it: whenever it returns,
    the settings and the range of the selection are what they were, the
    class names and the selection handles it has recorded come after the
    earlier ones, and every rendered element still has the classes it
    had. *)
Theorem draw_only_adds wot s s' log :
  draw wot s = Normal (tt, s', log) ->
  settings (selection s') = settings (selection s)
  /\ cellRange (selection s') = cellRange (selection s)
  /\ classNames (selection s) `prefix_of` classNames (selection s')
  /\ instanceSelectionHandles (selection s)
     `prefix_of` instanceSelectionHandles (selection s')
  /\ (forall element, classesOf s element ⊆ classesOf s' element).
Proof. intros H. by apply steady_draw in H as [Hg _]. Qed.

(** X20.  [draw] records a generated class name only when the selection does
    not have it yet, and creates a selection handle only for an instance
    that has none: a selection whose class names and handles are pairwise
    different keeps them so. *)
Theorem draw_records_once wot s s' log :
  NoDup (classNames (selection s)) ->
  NoDup (instanceSelectionHandles (selection s)) ->
  draw wot s = Normal (tt, s', log) ->
  NoDup (classNames (selection s'))
  /\ NoDup (instanceSelectionHandles (selection s')).
Proof.
  intros Hnames Hhandles H. apply steady_draw in H as [_ Hr].
  by apply Hr.
Qed.
End DrawGrows.

Section ClassNames.
Implicit Types (base : option string) (classes : list string).

Lemma generator_is_calcClassNameFrom base level classes :
  linearClassNameGenerator base level classes
  = calcClassNameFrom base classes level.
Proof. unfold linearClassNameGenerator. by destruct level. Qed.

(** X21.  On a cell that carries the class of no lower layer the generator
    returns the base class name, whatever the layer level is. *)
Theorem first_layer_gets_base_class base (level : nat) classes :
  (forall j, j < level -> hasClass classes (layerClassName base j) = false) ->
  linearClassNameGenerator base level classes = base.
Proof.
  rewrite generator_is_calcClassNameFrom.
  induction level as [|index IH]; intros Hnone; [done|].
  cbn [calcClassNameFrom].
  change (match index with
          | 0 => base
          | S _ => Some (suffixed base index)
          end) with (layerClassName base index).
  rewrite (Hnone index) by lia. apply IH. intros j Hj. apply Hnone. lia.
Qed.

(** X22.  On a cell that carries the class of the lower layer [j], and of no
    layer between [j] and the level of the selection, the generator
    returns the class of layer [j + 1]: the classes continue the highest
    layer already on the cell. *)
Theorem next_layer_continues_highest base (level j : nat) classes :
  j < level ->
  hasClass classes (layerClassName base j) = true ->
  (forall k, j < k < level -> hasClass classes (layerClassName base k) = false) ->
  linearClassNameGenerator base level classes = Some (suffixed base (j + 1)).
Proof.
  rewrite generator_is_calcClassNameFrom.
  induction level as [|index IH]; intros Hj Hhas Hnone; [lia|].
  cbn [calcClassNameFrom].
  change (match index with
          | 0 => base
          | S _ => Some (suffixed base index)
          end) with (layerClassName base index).
  destruct (decide (j = index)) as [->|Hne].
  - by rewrite Hhas.
  - rewrite (Hnone index) by lia. apply IH; [lia|done|].
    intros k Hk. apply Hnone. lia.
Qed.
End ClassNames.

(* ================================================================== *)
(** * Properties of the meta helpers *)
(* ================================================================== *)

Import MetaHelpers.

Section MetaTypes.
Context {V : Type}.
Implicit Types (metaObject : gmap string (MetaValue V)).
Implicit Types (type expanded : gmap string V).
Implicit Types (getCellType : string -> Completion (gmap string V)).

Lemma missingProperties_lookup metaObject type (key : string) (value : V) :
  missingProperties metaObject type !! key = Some value
  <-> type !! key = Some value
      /\ metaObject !! key = None /\ key <> "__proto__"%string.
Proof. unfold missingProperties. by rewrite map_lookup_filter_Some. Qed.

Lemma missingProperties_None metaObject type (key : string) :
  metaObject !! key <> None \/ key = "__proto__"%string ->
  missingProperties metaObject type !! key = None.
Proof.
  intros Hkey.
  destruct (missingProperties metaObject type !! key) eqn:Hk; [|done].
  apply missingProperties_lookup in Hk as (_ & Hnone & Hproto).
  by destruct Hkey.
Qed.

(** What [expandMetaType] returns when it returns an object: the
    missing properties of the type object [type], or no property when
    the meta object names no type object. *)
Lemma expandMetaType_result getCellType metaObject expanded :
  expandMetaType getCellType metaObject = Normal (Some expanded) ->
  is_Some (metaObject !! "type"%string)
  /\ (expanded = ∅
      \/ exists type, expanded = missingProperties metaObject type
           /\ (metaObject !! "type"%string = Some (ObjectValue type)
               \/ exists name,
                    metaObject !! "type"%string = Some (StringValue name)
                    /\ getCellType name = Normal type)).
Proof.
  unfold expandMetaType. intros H.
  destruct (metaObject !! "type"%string) as [[type|name|other]|] eqn:Htype;
    try done.
  - injection H as <-. split; [done|]. right. exists type. by split; [|left].
  - destruct (getCellType name) as [type|] eqn:Hcell; [|done].
    injection H as <-. split; [done|]. right. exists type. split; [done|].
    right. by exists name.
  - injection H as <-. split; [done|]. by left.
Qed.

Lemma expanded_lacks_type getCellType metaObject expanded :
  expandMetaType getCellType metaObject = Normal (Some expanded) ->
  expanded !! "type"%string = None.
Proof.
  intros H.
  destruct (expandMetaType_result _ _ _ H) as ([t Ht] & [->|(type & -> & _)]);
    [done|].
  apply missingProperties_None. left. by rewrite Ht.
Qed.

(** X23.  The type named by a meta object never overrides the meta object: no
    expanded property is a property that the meta object has itself, so
    the expansion never contains [type]; nor does it contain
    [__proto__].  When the type object, given as an object or named by a
    string, has no property [__proto__] of its own, the expansion has
    exactly the properties of that object that the meta object lacks,
    with their values. *)
Theorem expanded_type_never_overrides getCellType metaObject expanded :
  expandMetaType getCellType metaObject = Normal (Some expanded) ->
  (forall key, is_Some (expanded !! key) -> metaObject !! key = None)
  /\ expanded !! "type"%string = None
  /\ expanded !! "__proto__"%string = None
  /\ forall type,
       metaObject !! "type"%string = Some (ObjectValue type)
       \/ (exists name,
             metaObject !! "type"%string = Some (StringValue name)
             /\ getCellType name = Normal type) ->
       type !! "__proto__"%string = None ->
       forall key value,
         expanded !! key = Some value
         <-> type !! key = Some value /\ metaObject !! key = None.
Proof.
  intros H.
  destruct (expandMetaType_result _ _ _ H) as ([t Ht] & Hexpanded).
  split; [|split; [|split]].
  - intros key [value Hv].
    destruct Hexpanded as [->|(type & -> & _)]; [done|].
    by apply missingProperties_lookup in Hv as (_ & ? & _).
  - destruct Hexpanded as [->|(type & -> & _)]; [done|].
    apply missingProperties_None. left. by rewrite Ht.
  - destruct Hexpanded as [->|(type & -> & _)]; [done|].
    apply missingProperties_None. by right.
  - intros type Htype Hproto key value.
    assert (Hsame : expanded = missingProperties metaObject type).
    { unfold expandMetaType in H.
      destruct Htype as [Htype|(name & Htype & Hcell)]; rewrite Htype in H.
      - by injection H as <-.
      - rewrite Hcell in H. by injection H as <-. }
    rewrite Hsame, missingProperties_lookup. split.
    + by intros (? & ? & _).
    + intros [Hin Hout]. split_and!; [done..|]. intros ->. congruence.
Qed.

(** X24.  Expanding is idempotent: once the expanded properties are assigned to
    the meta object, expanding the result adds nothing. *)
Theorem expanding_twice_adds_nothing getCellType metaObject expanded :
  expandMetaType getCellType metaObject = Normal (Some expanded) ->
  expandMetaType getCellType (assignExpanded expanded metaObject)
  = Normal (Some ∅).
Proof.
  intros H.
  pose proof (expanded_lacks_type _ _ _ H) as Hnotype.
  assert (Hsame : assignExpanded expanded metaObject !! "type"%string
                  = metaObject !! "type"%string).
  { unfold assignExpanded. rewrite lookup_union_r; [done|].
    by rewrite lookup_fmap, Hnotype. }
  assert (Hnone : forall type,
             expanded = missingProperties metaObject type ->
             missingProperties (assignExpanded expanded metaObject) type = ∅).
  { intros type ->. apply map_eq. intros key. rewrite lookup_empty.
    destruct (missingProperties _ type !! key) as [value|] eqn:Hk; [|done].
    apply missingProperties_lookup in Hk as (Hin & Hout & Hproto).
    unfold assignExpanded in Hout.
    apply lookup_union_None in Hout as [Hexp Hmeta].
    rewrite lookup_fmap in Hexp.
    assert (Hhas : missingProperties metaObject type !! key = Some value)
      by by apply missingProperties_lookup.
    by rewrite Hhas in Hexp. }
  unfold expandMetaType in *. rewrite Hsame.
  destruct (metaObject !! "type"%string) as [[type|name|other]|]; try done.
  - injection H as <-. by rewrite Hnone.
  - destruct (getCellType name) as [type|]; [|done].
    injection H as <-. by rewrite Hnone.
Qed.
End MetaTypes.

(** X25.  Undoing a replacement: when [replace] has put the new coordinates in
    place of the old ones, replacing them back restores the selection,
    provided the new coordinates were not already the [from] of the range
    while the old ones were its [to]. *)
Theorem replace_then_back (this : Selection) (range : CellRange)
    (oldCoords newCoords : CellCoords) :
  cellRange this = Some range ->
  from range = oldCoords \/ from range <> newCoords ->
  (replace oldCoords newCoords this).2 = true ->
  replace newCoords oldCoords (replace oldCoords newCoords this).1
  = (this, true).
Proof.
  intros Hrange Hfrom. destruct this as [st cr handles names descriptor].
  cbn in Hrange. subst cr. destruct range as [a b]. cbn in Hfrom.
  unfold replace, withCellRange. cbn.
  destruct (isEqual a oldCoords) eqn:Ha; cbn.
  - apply isEqual_true_iff in Ha as ->.
    assert (Hn : isEqual newCoords newCoords = true)
      by by apply isEqual_true_iff.
    by rewrite Hn.
  - apply isEqual_false_iff in Ha.
    destruct (isEqual b oldCoords) eqn:Hb; cbn; [|done].
    apply isEqual_true_iff in Hb as ->. intros _.
    assert (Hne : isEqual a newCoords = false)
      by (apply isEqual_false_iff; tauto).
    assert (Hn : isEqual newCoords newCoords = true)
      by by apply isEqual_true_iff.
    by rewrite Hne, Hn.
Qed.

(* ================================================================== *)
(** * The further properties on concrete inputs *)
(* ================================================================== *)

Lemma first_index_beyond_end_appends_witness :
  (Z.of_nat (length [10; 11; 12]%Z) <= 7)%Z
  /\ getListWithInsertedItems [10; 11; 12]%Z 0 [7; 8]%Z (PlainValue 0%Z)
     = [10; 11; 12; 0; 0]%Z.
Proof.
  assert (H : (Z.of_nat (length [10; 11; 12]%Z) <= 7)%Z) by (simpl; lia).
  split; [exact H|].
  exact (first_index_beyond_end_appends [10; 11; 12]%Z 0 7 [8]%Z
           (PlainValue 0%Z) H).
Defined.

Lemma negative_first_index_counts_from_end_witness :
  (-1 < 0)%Z
  /\ getListWithInsertedItems [10; 11; 12]%Z 0 [-1]%Z (PlainValue 0%Z)
     = [10; 11; 0; 12]%Z.
Proof.
  assert (H : (-1 < 0)%Z) by lia.
  split; [exact H|].
  exact (negative_first_index_counts_from_end [10; 11; 12]%Z 0 (-1) []
           (PlainValue 0%Z) H).
Defined.


Lemma removal_depends_on_the_set_witness :
  (forall x, x ∈ [3; 0; 3]%Z <-> x ∈ [0; 3]%Z)
  /\ getListWithRemovedItems [10; 11; 12; 13; 14]%Z [3; 0; 3]%Z
     = getListWithRemovedItems [10; 11; 12; 13; 14]%Z [0; 3]%Z.
Proof.
  assert (H : forall x, x ∈ [3; 0; 3]%Z <-> x ∈ [0; 3]%Z).
  { intros x. rewrite !elem_of_cons, !elem_of_nil. tauto. }
  split; [exact H|].
  exact (removal_depends_on_the_set [10; 11; 12; 13; 14]%Z _ _ H).
Defined.

Lemma removal_of_a_block_witness :
  1 + 2 <= length [10; 11; 12; 13; 14]%Z
  /\ getListWithRemovedItems [10; 11; 12; 13; 14]%Z (seqZ 1 2)
     = [10; 13; 14]%Z.
Proof.
  assert (H : 1 + 2 <= length [10; 11; 12; 13; 14]%Z) by (simpl; lia).
  split; [exact H|].
  exact (removal_of_a_block [10; 11; 12; 13; 14]%Z 1 2 H).
Defined.

Lemma batch_insertion_one_at_a_time_witness :
  1 <= length [10; 11; 12]%Z
  /\ getListWithInsertedItems [10; 11; 12]%Z 1 [1; 2; 3]%Z (PlainValue 0%Z)
     = getListWithInsertedItems
         (getListWithInsertedItems [10; 11; 12]%Z 1 [1; 3]%Z (PlainValue 0%Z))
         1 [1]%Z (PlainValue 0%Z).
Proof.
  assert (H : 1 <= length [10; 11; 12]%Z) by (simpl; lia).
  split; [exact H|].
  exact (batch_insertion_one_at_a_time [10; 11; 12]%Z 1 1 1 2 [3]%Z 0%Z H).
Defined.

Lemma other_names_are_untouched_witness :
  "rowHeights"%string <> "columnWidths"%string
  /\ get "rowHeights" (register "columnWidths" 2
                         (sampleCollection, sampleWorld)).1
     = get "rowHeights" sampleCollection.
Proof.
  assert (H : "rowHeights"%string <> "columnWidths"%string) by discriminate.
  split; [exact H|].
  exact (proj1 (other_names_are_untouched "rowHeights" "columnWidths" 2
                  sampleCollection sampleWorld H)).
Defined.


(** The map registered under two names grows twice as much as the
    other one. *)
Example shared_map_is_updated_twice :
  let w' := insertToEvery 2 [2]%Z sharingCollection sampleWorld in
  indexedValues (heap w' 0) = [0; 1; -1; -1; 2; 3; 4]%Z
  /\ indexedValues (heap w' 1) = [0; 1; -1; 2; 3; 4]%Z.
Proof. split; reflexivity. Qed.

Lemma counter_tracks_total_size_witness :
  Forall uniqueNames (collections sampleSystem)
  /\ (counterOf (performAll sampleOperations sampleSystem)
      - totalLength (performAll sampleOperations sampleSystem)
      = counterOf sampleSystem - totalLength sampleSystem)%Z.
Proof.
  assert (H : Forall uniqueNames (collections sampleSystem))
    by (repeat constructor).
  split; [exact H|].
  exact (proj2 (counter_tracks_total_size sampleOperations sampleSystem H)).
Defined.

Lemma draw_of_empty_selection_witness :
  isEmpty (selection (sampleState emptySelection)) = true
  /\ draw sampleInstance (sampleState emptySelection)
     = Normal (tt, sampleState emptySelection, []).
Proof.
  split; [reflexivity|].
  exact (draw_of_empty_selection sampleInstance (sampleState emptySelection)
           eq_refl).
Defined.

Lemma draw_without_border_returns_witness :
  border (settings (selection (sampleState plainSelection))) = None
  /\ exists s' log,
       draw paneInstance (sampleState plainSelection) = Normal (tt, s', log)
       /\ getBorderEdgesDescriptor (selection s') = []
       /\ Forall touchesNoHandle log.
Proof.
  split; [reflexivity|].
  exact (draw_without_border_returns paneInstance (sampleState plainSelection)
           eq_refl).
Defined.

Lemma draw_with_nothing_rendered_witness :
  getCorners (selection (sampleState wideSelection))
  = Normal (2, 3, 20, 30)%Z
  /\ getRenderedRowsCount (wtTable emptyInstance) = 0%Z
  /\ exists s' log,
       draw emptyInstance (sampleState wideSelection) = Normal (tt, s', log)
       /\ getBorderEdgesDescriptor (selection s') = []
       /\ Forall addsOnlyToHeaders log.
Proof.
  split; [reflexivity|]. split; [reflexivity|].
  exact (draw_with_nothing_rendered emptyInstance (sampleState wideSelection)
           (2, 3, 20, 30)%Z eq_refl (or_introl eq_refl)).
Defined.

Lemma selected_classes_stay_within_witness :
  getCorners (selection (sampleState tallSelection)) = Normal (2, 3, 20, 5)%Z
  /\ returnsNormally (draw sampleInstance (sampleState tallSelection)) = true
  /\ Forall (marksWithin sampleInstance (2, 3, 20, 5)%Z)
       (effectsOf (draw sampleInstance (sampleState tallSelection))).
Proof.
  assert (Hreturns :
            returnsNormally (draw sampleInstance (sampleState tallSelection))
            = true)
    by (vm_compute; reflexivity).
  split; [reflexivity|]. split; [exact Hreturns|].
  exact (selected_classes_stay_within sampleInstance
           (sampleState tallSelection) (2, 3, 20, 5)%Z _ _ eq_refl
           (normal_completion _ (sampleState tallSelection) Hreturns)).
Defined.

Lemma relevant_cell_inside_window_witness :
  (0 <= 8 <= nullToNumber (Some 8) /\ 5 <= nullToNumber (Some 11))%Z
  /\ getRelevantCell paneInstance 8 5 0 (Some 8%Z) (Some 11%Z)
       (sampleState wideSelection)
     = Normal (None, sampleState wideSelection, []).
Proof.
  assert (H : (0 <= 8 <= nullToNumber (Some 8)
               /\ 5 <= nullToNumber (Some 11))%Z) by (cbn; lia).
  split; [exact H|].
  exact (relevant_cell_inside_window paneInstance 8 5 0 (Some 8%Z)
           (Some 11%Z) (sampleState wideSelection) H).
Defined.

Lemma draw_only_adds_witness :
  returnsNormally (draw sampleInstance (sampleState tallSelection)) = true
  /\ cellRange (selection (stateAfter
                             (draw sampleInstance (sampleState tallSelection))
                             (sampleState tallSelection)))
     = cellRange tallSelection.
Proof.
  assert (Hreturns :
            returnsNormally (draw sampleInstance (sampleState tallSelection))
            = true)
    by (vm_compute; reflexivity).
  split; [exact Hreturns|].
  exact (proj1 (proj2
    (draw_only_adds sampleInstance (sampleState tallSelection) _ _
       (normal_completion _ (sampleState tallSelection) Hreturns)))).
Defined.

Lemma draw_records_once_witness :
  NoDup (classNames (selection (sampleState handleSelection)))
  /\ NoDup (instanceSelectionHandles (selection (sampleState handleSelection)))
  /\ returnsNormally (draw sampleInstance (sampleState handleSelection)) = true
  /\ NoDup (instanceSelectionHandles
              (selection (stateAfter
                            (draw sampleInstance (sampleState handleSelection))
                            (sampleState handleSelection)))).
Proof.
  assert (Hnames : NoDup (classNames (selection (sampleState handleSelection))))
    by (apply NoDup_singleton).
  assert (Hhandles :
            NoDup (instanceSelectionHandles
                     (selection (sampleState handleSelection))))
    by (apply NoDup_nil_2).
  assert (Hreturns :
            returnsNormally (draw sampleInstance (sampleState handleSelection))
            = true)
    by (vm_compute; reflexivity).
  split; [exact Hnames|]. split; [exact Hhandles|]. split; [exact Hreturns|].
  exact (proj2
    (draw_records_once sampleInstance (sampleState handleSelection) _ _
       Hnames Hhandles
       (normal_completion _ (sampleState handleSelection) Hreturns))).
Defined.

Lemma first_layer_gets_base_class_witness :
  (forall j, j < 3 -> hasClass [] (layerClassName (Some "area"%string) j) = false)
  /\ linearClassNameGenerator (Some "area"%string) 3 [] = Some "area"%string.
Proof.
  assert (H : forall j, j < 3
                        -> hasClass [] (layerClassName (Some "area"%string) j)
                           = false).
  { intros j _. destruct j; reflexivity. }
  split; [exact H|].
  exact (first_layer_gets_base_class (Some "area"%string) 3 [] H).
Defined.

Lemma next_layer_continues_highest_witness :
  1 < 3
  /\ hasClass ["area"; "area-1"]%string (layerClassName (Some "area"%string) 1)
     = true
  /\ linearClassNameGenerator (Some "area"%string) 3 ["area"; "area-1"]%string
     = Some (suffixed (Some "area"%string) (1 + 1)).
Proof.
  assert (Hj : 1 < 3) by lia.
  assert (Hhas : hasClass ["area"; "area-1"]%string
                   (layerClassName (Some "area"%string) 1) = true)
    by (vm_compute; reflexivity).
  assert (Hnone : forall k, 1 < k < 3 ->
                    hasClass ["area"; "area-1"]%string
                      (layerClassName (Some "area"%string) k) = false).
  { intros k Hk. assert (k = 2) as -> by lia. vm_compute. reflexivity. }
  split; [exact Hj|]. split; [exact Hhas|].
  exact (next_layer_continues_highest (Some "area"%string) 3 1
           ["area"; "area-1"]%string Hj Hhas Hnone).
Defined.

Example third_layer_class_name :
  linearClassNameGenerator (Some "area"%string) 3 ["area"; "area-1"]%string
  = Some "area-2"%string.
Proof. vm_compute. reflexivity. Qed.

Lemma replace_then_back_witness :
  cellRange smallSelection
  = Some (mkCellRange (mkCellCoords 1 1) (mkCellCoords 3 3))
  /\ (replace (mkCellCoords 1 1) (mkCellCoords 9 9) smallSelection).2 = true
  /\ replace (mkCellCoords 9 9) (mkCellCoords 1 1)
       (replace (mkCellCoords 1 1) (mkCellCoords 9 9) smallSelection).1
     = (smallSelection, true).
Proof.
  split; [reflexivity|]. split; [reflexivity|].
  exact (replace_then_back smallSelection
           (mkCellRange (mkCellCoords 1 1) (mkCellCoords 3 3))
           (mkCellCoords 1 1) (mkCellCoords 9 9) eq_refl (or_introl eq_refl)
           eq_refl).
Defined.

Lemma expanded_type_never_overrides_witness :
  expandMetaType sampleCellTypes sampleMeta
  = Normal (Some (<["validator"%string := 2]> ∅))
  /\ sampleMeta !! "type"%string = Some (StringValue "numeric")
  /\ sampleCellTypes "numeric" = Normal sampleType
  /\ sampleType !! "__proto__"%string = None
  /\ (forall key value,
        (<["validator"%string := 2]> ∅ : gmap string nat) !! key = Some value
        <-> sampleType !! key = Some value /\ sampleMeta !! key = None).
Proof.
  assert (H : expandMetaType sampleCellTypes sampleMeta
              = Normal (Some (<["validator"%string := 2]> ∅)))
    by (vm_compute; reflexivity).
  assert (Hmeta : sampleMeta !! "type"%string = Some (StringValue "numeric"))
    by (vm_compute; reflexivity).
  assert (Hcell : sampleCellTypes "numeric" = Normal sampleType)
    by reflexivity.
  assert (Hproto : sampleType !! "__proto__"%string = None)
    by (vm_compute; reflexivity).
  split; [exact H|]. split; [exact Hmeta|]. split; [exact Hcell|].
  split; [exact Hproto|].
  exact (proj2 (proj2 (proj2 (expanded_type_never_overrides sampleCellTypes
                                sampleMeta _ H)))
           sampleType
           (or_intror (ex_intro _ "numeric"%string (conj Hmeta Hcell)))
           Hproto).
Defined.

Lemma expanding_twice_adds_nothing_witness :
  expandMetaType sampleCellTypes sampleMeta
  = Normal (Some (<["validator"%string := 2]> ∅))
  /\ expandMetaType sampleCellTypes
       (assignExpanded (<["validator"%string := 2]> ∅) sampleMeta)
     = Normal (Some ∅).
Proof.
  assert (H : expandMetaType sampleCellTypes sampleMeta
              = Normal (Some (<["validator"%string := 2]> ∅)))
    by (vm_compute; reflexivity).
  split; [exact H|].
  exact (expanding_twice_adds_nothing sampleCellTypes sampleMeta _ H).
Defined.

(* ================================================================== *)
(** * The border-edges descriptor of a redraw *)
(* ================================================================== *)

Section Redraw.
Implicit Types (wot : WalkontableInstance) (s t : DrawState).
Implicit Types (this : Selection) (corners : Corners).

Lemma getRelevantCell_same_cell wot r c firstRow lastRow lastColumn
    s t td td' s' t' log log' :
  getRelevantCell wot r c firstRow lastRow lastColumn s = Normal (td, s', log) ->
  getRelevantCell wot r c firstRow lastRow lastColumn t = Normal (td', t', log') ->
  td = td'.
Proof.
  unfold getRelevantCell.
  destruct (getCell _ _); try (intros [= <- _ _] [= <- _ _]; done).
  intros Hs Ht.
  apply bind_Normal in Hs as (u & s1 & l1 & l2 & _ & Hs & _).
  apply bind_Normal in Ht as (u' & t1 & l1' & l2' & _ & Ht & _).
  injection Hs as <- _ _. by injection Ht as <- _ _.
Qed.

Lemma describeBorderEdges_same_descriptor wot this this' corners
    s t (u u' : unit) s' t' log log' :
  settings this' = settings this ->
  borderEdgesDescriptor (selection s) = borderEdgesDescriptor (selection t) ->
  describeBorderEdges wot this corners s = Normal (u, s', log) ->
  describeBorderEdges wot this' corners t = Normal (u', t', log') ->
  borderEdgesDescriptor (selection s') = borderEdgesDescriptor (selection t').
Proof.
  intros Hsettings Hd. unfold describeBorderEdges. rewrite Hsettings.
  destruct (_ && _); [|by intros [= _ <- _] [= _ <- _]].
  intros Hs Ht.
  apply bind_Normal in Hs as (first & s1 & l1 & l2 & Hfirst & Hs & _).
  apply bind_Normal in Ht as (first' & t1 & l1' & l2' & Hfirst' & Ht & _).
  assert (first = first') as <- by by eapply getRelevantCell_same_cell.
  apply getRelevantCell_state in Hfirst as ->.
  apply getRelevantCell_state in Hfirst' as ->.
  apply bind_Normal in Hs as (last & s2 & l3 & l4 & Hlast & Hs & _).
  apply bind_Normal in Ht as (last' & t2 & l3' & l4' & Hlast' & Ht & _).
  assert (last = last' /\ s2 = s /\ t2 = t) as (<- & -> & ->).
  { destruct (_ && _) in Hlast, Hlast'.
    - injection Hlast as <- <- _. by injection Hlast' as <- <- _.
    - split; [by eapply getRelevantCell_same_cell|].
      split; by eapply getRelevantCell_state. }
  destruct first, last; injection Hs as _ <- _; by injection Ht as _ <- _.
Qed.

Lemma drawSelection_edges wot this corners s (u : unit) s' log :
  drawSelection wot this corners s = Normal (u, s', log) ->
  exists s2 sE,
    borderEdgesDescriptor (selection s2) = borderEdgesDescriptor (selection s)
    /\ borderEdgesDescriptor (selection s') = borderEdgesDescriptor (selection sE)
    /\ if truthyNumber (getRenderedRowsCount (wtTable wot))
          && truthyNumber (getRenderedColumnsCount (wtTable wot))
       then exists logE,
           describeBorderEdges wot this corners s2 = Normal (tt, sE, logE)
       else sE = s2.
Proof.
  unfold drawSelection. intros H.
  apply bind_Normal in H as (u1 & s1 & l1 & l1' & Hcolumns & H & _).
  apply (quiet_result _ _ _ _ _ _ (quiet_highlightColumns wot this corners))
    in Hcolumns as [Hd1 _].
  apply bind_Normal in H as (u2 & s2 & l2 & l2' & Hrows & H & _).
  apply (quiet_result _ _ _ _ _ _ (quiet_highlightRows wot this corners))
    in Hrows as [Hd2 _].
  apply bind_Normal in H as (u3 & s3 & l3 & l3' & Hbody & H & _).
  apply bind_Normal in H as (u4 & s4 & l4 & l4' & Hhook & H & _).
  injection Hhook as _ <- _.
  assert (Hd4 : borderEdgesDescriptor (selection s')
                = borderEdgesDescriptor (selection s3)).
  { destruct (hasSelectionHandle this).
    - apply bind_Normal in H as (u5 & s5 & l5 & l5' & Hhandle & H & _).
      injection H as _ <- _.
      by apply (quiet_result _ _ _ _ _ _ (quiet_getSelectionHandle wot))
        in Hhandle as [Hd5 _].
    - by injection H as _ <- _. }
  destruct (_ && _).
  - apply bind_Normal in Hbody as (u6 & s6 & l6 & l6' & Hedges & Hcells & _).
    apply (quiet_result _ _ _ _ _ _ (quiet_selectCells wot this corners))
      in Hcells as [Hd6 _].
    exists s2, s6. split; [congruence|]. split; [congruence|].
    destruct u6. by exists l6.
  - injection Hbody as _ <- _. exists s2, s2. split; [congruence|]. by split.
Qed.

(** X26.  The descriptor that [draw] leaves depends on the instance, the
    settings and the range only: two draws of selections with the same
    settings and range on the same instance leave the same descriptor,
    whatever the descriptors, class names, handles and element classes
    were before.  In particular a redraw reproduces the descriptor. *)
Theorem descriptor_is_recomputed wot s t s' t' log log' :
  settings (selection t) = settings (selection s) ->
  cellRange (selection t) = cellRange (selection s) ->
  draw wot s = Normal (tt, s', log) ->
  draw wot t = Normal (tt, t', log') ->
  getBorderEdgesDescriptor (selection s')
  = getBorderEdgesDescriptor (selection t').
Proof.
  intros Hsettings Hrange Hs Ht. unfold getBorderEdgesDescriptor.
  destruct (cellRange (selection s)) as [range|] eqn:Hrs.
  - assert (Hcs : exists corners, getCorners (selection s) = Normal corners)
      by (unfold getCorners; rewrite Hrs; by eexists).
    destruct Hcs as [corners Hcs].
    assert (Hct : getCorners (selection t) = Normal corners)
      by (unfold getCorners in *; rewrite Hrange; by rewrite Hrs in Hcs).
    rewrite (draw_nonempty wot s corners Hcs) in Hs.
    rewrite (draw_nonempty wot t corners Hct) in Ht.
    apply drawSelection_edges in Hs as (s2 & sE & Hs2 & HsE & Hsmid).
    apply drawSelection_edges in Ht as (t2 & tE & Ht2 & HtE & Htmid).
    cbn in Hs2, Ht2. rewrite HsE, HtE.
    destruct (_ && _).
    + destruct Hsmid as [logS Hsmid]. destruct Htmid as [logT Htmid].
      eapply (describeBorderEdges_same_descriptor wot _ _ corners s2 t2);
        [|by rewrite Hs2, Ht2|exact Hsmid|exact Htmid].
      cbn. exact Hsettings.
    + subst. by rewrite Hs2, Ht2.
  - rewrite draw_empty_result in Hs by (unfold isEmpty; by rewrite Hrs).
    rewrite draw_empty_result in Ht
      by (unfold isEmpty; by rewrite Hrange).
    injection Hs as <- _. by injection Ht as <- _.
Qed.
End Redraw.

Lemma descriptor_is_recomputed_witness :
  settings (selection (sampleState (setSelectionHandle 5 tallSelection)))
  = settings (selection (sampleState tallSelection))
  /\ cellRange (selection (sampleState (setSelectionHandle 5 tallSelection)))
     = cellRange (selection (sampleState tallSelection))
  /\ returnsNormally (draw sampleInstance (sampleState tallSelection)) = true
  /\ returnsNormally
       (draw sampleInstance (sampleState (setSelectionHandle 5 tallSelection)))
     = true
  /\ getBorderEdgesDescriptor
       (selection (stateAfter (draw sampleInstance (sampleState tallSelection))
                     (sampleState tallSelection)))
     = getBorderEdgesDescriptor
         (selection
            (stateAfter
               (draw sampleInstance
                  (sampleState (setSelectionHandle 5 tallSelection)))
               (sampleState tallSelection))).
Proof.
  assert (Hfirst :
            returnsNormally (draw sampleInstance (sampleState tallSelection))
            = true)
    by (vm_compute; reflexivity).
  assert (Hsecond :
            returnsNormally
              (draw sampleInstance
                 (sampleState (setSelectionHandle 5 tallSelection))) = true)
    by (vm_compute; reflexivity).
  split; [reflexivity|]. split; [reflexivity|].
  split; [exact Hfirst|]. split; [exact Hsecond|].
  exact (descriptor_is_recomputed sampleInstance
           (sampleState tallSelection)
           (sampleState (setSelectionHandle 5 tallSelection))
           _ _ _ _ eq_refl eq_refl
           (normal_completion _ (sampleState tallSelection) Hfirst)
           (normal_completion _ (sampleState tallSelection) Hsecond)).
Defined.
